(** * Bayesian neural net example: forward pass and unnormalised log-posterior

    Shallow embedding of [make_nn_funs] from
    [examples/bayesian_neural_net.py]: the weight unpacking generator
    [unpack_layers], the vectorised forward pass [predictions] and the
    unnormalised log-posterior [logprob].

    Arrays are modelled the way numpy stores them: a shape and the
    elements in row-major order.  Python exceptions are values of [pyerr],
    and a generator is the sequence of its yields, ended by a stop or by an
    exception.

    The element type is a parameter (class [Scalar]) that only provides the
    operations the code uses; no law is built in.  Properties that follow
    from the shape of the computation alone are proved for every such
    arithmetic.  Properties that rest on algebra state the laws they use as
    hypotheses.  Two instances run the code: the canonical rationals [Qc]
    (exact arithmetic) and the binary64 floating-point numbers the program
    computes with, on which the properties that need exact arithmetic are
    shown to fail. *)

From Stdlib Require Import List Arith Lia Bool Permutation.
From Stdlib Require Import ZArith QArith Qcanon.
From Stdlib Require Import Ring_theory Field_theory OrderedRing.
From Stdlib Require Import PrimFloat.
Import ListNotations.

Set Implicit Arguments.
Local Open Scope nat_scope.

(* ================================================================== *)
(** * Part I: definitions *)
(* ================================================================== *)

(** ** Python exceptions and fallible results *)

Inductive pyerr : Type :=
| TypeError
| IndexError
| ValueError
| AxisError
| UnboundLocalError.

Inductive result (A : Type) : Type :=
| Ok (a : A)
| Raise (e : pyerr).

Arguments Ok {A} a.
Arguments Raise {A} e.

Definition bind {A B : Type} (r : result A) (k : A -> result B) : result B :=
  match r with
  | Ok a => k a
  | Raise e => Raise e
  end.

Declare Scope py_scope.
Delimit Scope py_scope with py.
Notation "x <- c1 ;; c2" := (bind c1 (fun x => c2))
  (at level 61, c1 at next level, right associativity) : py_scope.
Local Open Scope py_scope.

(** A Python generator, unfolded: it stops, yields an item and goes on,
    or raises.  Since every operation below is pure, the lazily produced
    sequence is the same as this value. *)
Inductive gen (A : Type) : Type :=
| GStop
| GYield (a : A) (g : gen A)
| GRaise (e : pyerr).

Arguments GStop {A}.
Arguments GYield {A} a g.
Arguments GRaise {A} e.

(** [list(g)] *)
Fixpoint gen_items {A : Type} (g : gen A) : result (list A) :=
  match g with
  | GStop => Ok []
  | GYield a g' => l <- gen_items g' ;; Ok (a :: l)
  | GRaise e => Raise e
  end.

(** ** Scalars *)

Class Scalar (F : Type) : Type := {
  s0 : F;
  sadd : F -> F -> F;
  ssub : F -> F -> F;
  smul : F -> F -> F;
  sneg : F -> F;
  sdiv : F -> F -> F
}.

(** Exact rational arithmetic; [x / 0] is [0] there. *)
#[export] Instance QcScalar : Scalar Qc := {
  s0 := 0%Qc;
  sadd := Qcplus;
  ssub := Qcminus;
  smul := Qcmult;
  sneg := Qcopp;
  sdiv := Qcdiv
}.

(** IEEE binary64 arithmetic, the [float64] of numpy arrays. *)
#[export] Instance FloatScalar : Scalar float := {
  s0 := 0%float;
  sadd := PrimFloat.add;
  ssub := PrimFloat.sub;
  smul := PrimFloat.mul;
  sneg := PrimFloat.opp;
  sdiv := PrimFloat.div
}.

(** ** Shapes and row-major indexing *)

(** Number of elements of an array of shape [sh]. *)
Definition numel (sh : list nat) : nat := fold_right Nat.mul 1 sh.

(** Position of the element at multi-index [idx] in row-major order. *)
Fixpoint ravel (sh idx : list nat) : nat :=
  match sh, idx with
  | _ :: sh', i :: idx' => i * numel sh' + ravel sh' idx'
  | _, _ => 0
  end.

(** All multi-indices of shape [sh], in row-major order. *)
Fixpoint indices (sh : list nat) : list (list nat) :=
  match sh with
  | [] => [[]]
  | d :: sh' => flat_map (fun i => map (cons i) (indices sh')) (seq 0 d)
  end.

Definition in_bounds (sh idx : list nat) : Prop := Forall2 lt idx sh.

(** One dimension of numpy broadcasting. *)
Definition bdim (a b : nat) : option nat :=
  if a =? b then Some a
  else if a =? 1 then Some b
  else if b =? 1 then Some a
  else None.

(** Broadcasting of two shapes given last dimension first. *)
Fixpoint bshape_rev (s1 s2 : list nat) : option (list nat) :=
  match s1, s2 with
  | [], _ => Some s2
  | _, [] => Some s1
  | a :: s1', b :: s2' =>
      match bdim a b, bshape_rev s1' s2' with
      | Some d, Some r => Some (d :: r)
      | _, _ => None
      end
  end.

(** [np.broadcast_shapes]: shapes are aligned on their last dimension. *)
Definition broadcast_shapes (s1 s2 : list nat) : option (list nat) :=
  option_map (@rev nat) (bshape_rev (rev s1) (rev s2)).

(** The index read in an operand of shape [sh] for the index [idx] of the
    broadcast result: leading dimensions are dropped and a dimension of
    length 1 is read at 0. *)
Definition bidx (sh idx : list nat) : list nat :=
  map (fun di => if fst di =? 1 then 0 else snd di)
      (combine sh (skipn (length idx - length sh) idx)).

(** Python's [sum] of integers. *)
Definition py_sum (l : list nat) : nat := fold_left Nat.add l 0.

(** ** Arrays *)

Record ndarray (F : Type) : Type := mk_nd {
  shape : list nat;
  data : list F
}.

Arguments mk_nd {F} shape data.

Section Arrays.

Context {F : Type} `{Scalar F}.

Definition wf (a : ndarray F) : Prop := length (data a) = numel (shape a).

Definition get (a : ndarray F) (idx : list nat) : F :=
  nth (ravel (shape a) idx) (data a) s0.

(** The array of shape [sh] whose element at [idx] is [f idx]. *)
Definition build (sh : list nat) (f : list nat -> F) : ndarray F :=
  mk_nd sh (map f (indices sh)).

(** Sum of a list of scalars, accumulated from zero in list order. *)
Definition sum_list (l : list F) : F := fold_left sadd l s0.

(** [x ** 2], which numpy computes as the product [x * x]. *)
Definition spow2 (x : F) : F := smul x x.

(** [len(a)] *)
Definition len (a : ndarray F) : result nat :=
  match shape a with
  | d :: _ => Ok d
  | [] => Raise TypeError
  end.

(** [a.reshape(sh)] *)
Definition reshape (a : ndarray F) (sh : list nat) : result (ndarray F) :=
  if numel sh =? numel (shape a) then Ok (mk_nd sh (data a))
  else Raise ValueError.

(** [np.expand_dims(a, 0)] *)
Definition expand_dims0 (a : ndarray F) : ndarray F :=
  mk_nd (1 :: shape a) (data a).

(** [a[:, lo:hi]], and [a[:, lo:]] when [hi] is [None]; bounds are clipped
    to the axis length as Python slices are. *)
Definition slice_axis1 (lo : nat) (hi : option nat) (a : ndarray F)
  : result (ndarray F) :=
  match shape a with
  | d0 :: d1 :: rest =>
      let lo' := Nat.min lo d1 in
      let hi' := match hi with Some h => Nat.min h d1 | None => d1 end in
      Ok (build (d0 :: (hi' - lo') :: rest)
            (fun idx => match idx with
                        | i :: j :: r => get a (i :: (lo' + j) :: r)
                        | _ => s0
                        end))
  | _ => Raise IndexError
  end.

(** [a[:, 0]] *)
Definition index_axis1_0 (a : ndarray F) : result (ndarray F) :=
  match shape a with
  | d0 :: d1 :: rest =>
      if d1 =? 0 then Raise IndexError
      else Ok (build (d0 :: rest)
                 (fun idx => match idx with
                             | i :: r => get a (i :: 0 :: r)
                             | [] => s0
                             end))
  | _ => Raise IndexError
  end.

(** [np.sum(a, axis=1)] *)
Definition sum_axis1 (a : ndarray F) : result (ndarray F) :=
  match shape a with
  | d0 :: d1 :: rest =>
      Ok (build (d0 :: rest)
            (fun idx => match idx with
                        | i :: r =>
                            sum_list (map (fun k => get a (i :: k :: r)) (seq 0 d1))
                        | [] => s0
                        end))
  | _ => Raise AxisError
  end.

(** An elementwise unary function. *)
Definition map_nd (f : F -> F) (a : ndarray F) : ndarray F :=
  mk_nd (shape a) (map f (data a)).

(** An elementwise binary operator with broadcasting. *)
Definition broadcast2 (op : F -> F -> F) (a b : ndarray F) : result (ndarray F) :=
  match broadcast_shapes (shape a) (shape b) with
  | Some sh =>
      Ok (build sh (fun idx => op (get a (bidx (shape a) idx))
                                  (get b (bidx (shape b) idx))))
  | None => Raise ValueError
  end.

(** [np.einsum('mnd,mdo->mno', x, w)]: a matrix product per sample [m],
    contracting [d]; equal labels broadcast over a dimension of length 1. *)
Definition einsum_mnd_mdo_mno (x w : ndarray F) : result (ndarray F) :=
  match shape x, shape w with
  | [m1; n; d1], [m2; d2; o] =>
      match bdim m1 m2, bdim d1 d2 with
      | Some m, Some d =>
          Ok (build [m; n; o]
                (fun idx => match idx with
                            | [i; j; k] =>
                                sum_list
                                  (map (fun c =>
                                          smul (get x (bidx (shape x) [i; j; c]))
                                               (get w (bidx (shape w) [i; c; k])))
                                       (seq 0 d))
                            | _ => s0
                            end))
      | _, _ => Raise ValueError
      end
  | _, _ => Raise ValueError
  end.

(** [np.concatenate([a, b], axis=1)] of two 2-D arrays (used to re-pack
    weights; the code itself never concatenates). *)
Definition hstack (a b : ndarray F) : result (ndarray F) :=
  match shape a, shape b with
  | [r1; c1], [r2; c2] =>
      if r1 =? r2 then
        Ok (build [r1; c1 + c2]
              (fun idx => match idx with
                          | [i; j] => if j <? c1 then get a [i; j]
                                      else get b [i; j - c1]
                          | _ => s0
                          end))
      else Raise ValueError
  | _, _ => Raise ValueError
  end.

(** Element functions of arrays with one, two and three axes. *)
Definition fun1 (f : nat -> F) (idx : list nat) : F :=
  match idx with
  | [i] => f i
  | _ => s0
  end.

Definition fun2 (f : nat -> nat -> F) (idx : list nat) : F :=
  match idx with
  | [i; j] => f i j
  | _ => s0
  end.

Definition fun3 (f : nat -> nat -> nat -> F) (idx : list nat) : F :=
  match idx with
  | [i; j; k] => f i j k
  | _ => s0
  end.

(** [np.zeros(sh)], the all-zero array of the degenerate-input check. *)
Definition zeros (sh : list nat) : ndarray F := build sh (fun _ => s0).

(** [a[p]] for a list [p] of row numbers, each below the number of rows
    (numpy raises otherwise); an array without axes is left as it is. *)
Definition take_rows (p : list nat) (a : ndarray F) : ndarray F :=
  match shape a with
  | _ :: rest => build (length p :: rest)
                   (fun idx => match idx with
                               | k :: r => get a (nth k p 0 :: r)
                               | [] => s0
                               end)
  | [] => a
  end.

End Arrays.

(** ** The network functions *)

Section MakeNNFuns.

Context {F : Type} `{Scalar F}.

(** The arguments of [make_nn_funs]; the nonlinearity is applied to every
    element of an array. *)
Variable layer_sizes : list nat.
Variable L2_reg : F.
Variable noise_variance : F.
Variable nonlinearity : F -> F.

(** [list(zip(layer_sizes[:-1], layer_sizes[1:]))] *)
Definition shapes : list (nat * nat) :=
  combine (removelast layer_sizes) (tl layer_sizes).

(** [sum((m+1)*n for m, n in shapes)] *)
Definition num_weights : nat :=
  py_sum (map (fun mn => (fst mn + 1) * snd mn) shapes).

(** The body of the [for] loop of [unpack_layers]: the pair is built and
    yielded, and on resumption the consumed columns are dropped. *)
Fixpoint unpack_loop (num_weight_sets : nat) (shp : list (nat * nat))
  (weights : ndarray F) : gen (ndarray F * ndarray F) :=
  match shp with
  | [] => GStop
  | (m, n) :: shp' =>
      match (s <- slice_axis1 0 (Some (m * n)) weights ;;
             reshape s [num_weight_sets; m; n]) with
      | Raise e => GRaise e
      | Ok W =>
          match (s <- slice_axis1 (m * n) (Some (m * n + n)) weights ;;
                 reshape s [num_weight_sets; 1; n]) with
          | Raise e => GRaise e
          | Ok b =>
              GYield (W, b)
                (match slice_axis1 ((m + 1) * n) None weights with
                 | Ok weights' => unpack_loop num_weight_sets shp' weights'
                 | Raise e => GRaise e
                 end)
          end
      end
  end.

Definition unpack_layers (weights : ndarray F) : gen (ndarray F * ndarray F) :=
  match len weights with
  | Ok num_weight_sets => unpack_loop num_weight_sets shapes weights
  | Raise e => GRaise e
  end.

(** [np.einsum('mnd,mdo->mno', inputs, W) + b] *)
Definition preactivation (inputs W b : ndarray F) : result (ndarray F) :=
  z <- einsum_mnd_mdo_mno inputs W ;;
  broadcast2 sadd z b.

(** The [for] loop of [predictions] over the generator; [outputs] is
    unbound until the first iteration has run. *)
Fixpoint predictions_loop (g : gen (ndarray F * ndarray F))
  (inputs : ndarray F) (outputs : option (ndarray F)) : result (ndarray F) :=
  match g with
  | GStop =>
      match outputs with
      | Some o => Ok o
      | None => Raise UnboundLocalError
      end
  | GRaise e => Raise e
  | GYield (W, b) g' =>
      o <- preactivation inputs W b ;;
      predictions_loop g' (map_nd nonlinearity o) (Some o)
  end.

Definition predictions (weights inputs : ndarray F) : result (ndarray F) :=
  predictions_loop (unpack_layers weights) (expand_dims0 inputs) None.

(** [-L2_reg * np.sum(weights**2, axis=1)] *)
Definition log_prior (weights : ndarray F) : result (ndarray F) :=
  s <- sum_axis1 (map_nd spow2 weights) ;;
  Ok (map_nd (smul (sneg L2_reg)) s).

(** [-np.sum((preds - targets)**2, axis=1)[:, 0] / noise_variance] *)
Definition log_lik (preds targets : ndarray F) : result (ndarray F) :=
  diff <- broadcast2 ssub preds targets ;;
  s <- sum_axis1 (map_nd spow2 diff) ;;
  c <- index_axis1_0 s ;;
  Ok (map_nd (fun x => sdiv (sneg x) noise_variance) c).

Definition logprob (weights inputs targets : ndarray F) : result (ndarray F) :=
  lp <- log_prior weights ;;
  preds <- predictions weights inputs ;;
  ll <- log_lik preds targets ;;
  broadcast2 sadd lp ll.

(** [make_nn_funs] validates nothing and raises nothing: it returns the
    parameter count and the two closures. *)
Definition make_nn_funs :
  result (nat
          * (ndarray F -> ndarray F -> result (ndarray F))
          * (ndarray F -> ndarray F -> ndarray F -> result (ndarray F))) :=
  Ok (num_weights, predictions, logprob).

End MakeNNFuns.

(** ** Elementwise description of the network

    The functions below describe, element by element, what the loops above
    compute; they are related to the code in Part II. *)

Section Elementwise.

Context {F : Type} `{Scalar F}.

(** The generator that yields the items of a list and stops. *)
Fixpoint gen_of_list {A : Type} (l : list A) : gen A :=
  match l with
  | [] => GStop
  | a :: l' => GYield a (gen_of_list l')
  end.

(** Columns [off .. off + c - 1] of the rows [0 .. S - 1] of [w]. *)
Definition colblock (w : ndarray F) (S off c : nat) : ndarray F :=
  build [S; c] (fun2 (fun s j => get w [s; off + j])).

(** Weight matrix of a layer [(m, n)] whose block starts at column [off]. *)
Definition weight_matrix (w : ndarray F) (S m n off : nat) : ndarray F :=
  build [S; m; n] (fun3 (fun s d o => get w [s; off + (d * n + o)])).

(** Its bias vector, stored after the [m * n] matrix entries. *)
Definition bias_vector (w : ndarray F) (S m n off : nat) : ndarray F :=
  build [S; 1; n] (fun3 (fun s _ o => get w [s; off + m * n + o])).

(** The pairs of all layers, the first block starting at column [off]. *)
Fixpoint pairs_at (w : ndarray F) (S : nat) (shp : list (nat * nat)) (off : nat)
  : list (ndarray F * ndarray F) :=
  match shp with
  | [] => []
  | (m, n) :: shp' =>
      (weight_matrix w S m n off, bias_vector w S m n off)
        :: pairs_at w S shp' (off + (m + 1) * n)
  end.

(** Consecutive layer pairs share a width: the first takes [m] inputs. *)
Fixpoint chain (m : nat) (shp : list (nat * nat)) : Prop :=
  match shp with
  | [] => True
  | (m', n) :: shp' => m' = m /\ chain n shp'
  end.

(** Number of outputs of the last layer; [m] when there is no layer. *)
Fixpoint out_width (m : nat) (shp : list (nat * nat)) : nat :=
  match shp with
  | [] => m
  | (_, n) :: shp' => out_width n shp'
  end.

(** Pre-activation [o] of a layer [(m, n)] on the input vector [x], for the
    weight row [w] whose block starts at [off]. *)
Definition layer_out (m n off : nat) (w x : nat -> F) (o : nat) : F :=
  sadd (sum_list (map (fun c => smul (x c) (w (off + (c * n + o)))) (seq 0 m)))
       (w (off + m * n + o)).

(** The network on one input vector and one weight row: the nonlinearity
    is applied to the pre-activation of every layer but the last. *)
Fixpoint net (f : F -> F) (shp : list (nat * nat)) (off : nat)
  (w x : nat -> F) : nat -> F :=
  match shp with
  | [] => x
  | (m, n) :: shp' =>
      match shp' with
      | [] => layer_out m n off w x
      | _ :: _ => net f shp' (off + (m + 1) * n) w
                    (fun o => f (layer_out m n off w x o))
      end
  end.


(** ** The log-posterior of one weight sample, as the specification's
    formula reads *)

(** [-L2_reg * sum_c weights[s,c]^2] for a weight batch with [W] columns. *)
Definition log_prior_at (L2_reg : F) (weights : ndarray F) (W s : nat) : F :=
  smul (sneg L2_reg)
       (sum_list (map (fun c => spow2 (get weights [s; c])) (seq 0 W))).

(** [-(sum_j (preds[s,j,0] - targets[j,0])^2) / noise_variance] for [N]
    data points. *)
Definition log_lik_at (noise_variance : F) (preds targets : ndarray F)
  (N s : nat) : F :=
  sdiv (sneg (sum_list
                (map (fun j => spow2 (ssub (get preds [s; j; 0])
                                           (get targets [j; 0])))
                     (seq 0 N))))
       noise_variance.

(** ** Re-packing of unpacked weights

    The inverse of unpacking, as the specification words it: every matrix
    is flattened to (S, m*n), every bias to (S, n), and the blocks are
    concatenated along the columns in schedule order. *)

(** [a.reshape((S, k))] for an array [a] of shape [(S, ...)] with [k]
    elements per sample. *)
Definition flatten_sample (a : ndarray F) : result (ndarray F) :=
  match shape a with
  | d0 :: rest => reshape a [d0; numel rest]
  | [] => Raise ValueError
  end.

(** The flat blocks of all pairs, in order: matrix, bias, matrix, bias ... *)
Fixpoint flat_blocks (items : list (ndarray F * ndarray F))
  : result (list (ndarray F)) :=
  match items with
  | [] => Ok []
  | (W, b) :: items' =>
      W' <- flatten_sample W ;;
      b' <- flatten_sample b ;;
      l <- flat_blocks items' ;;
      Ok (W' :: b' :: l)
  end.

(** [np.concatenate(blocks, axis=1)] of 2-D arrays. *)
Definition concatenate_axis1 (blocks : list (ndarray F)) : result (ndarray F) :=
  match blocks with
  | [] => Raise ValueError
  | a :: rest => fold_left (fun acc b => x <- acc ;; hstack x b) rest (Ok a)
  end.

Definition repack (items : list (ndarray F * ndarray F)) : result (ndarray F) :=
  l <- flat_blocks items ;;
  concatenate_axis1 l.

End Elementwise.

(** The adjacent pairs [(m, n)] of a layer schedule, first to last. *)
Definition adjacent_pairs (ls : list nat) : list (nat * nat) :=
  map (fun k => (nth k ls 0, nth (S k) ls 0)) (seq 0 (length ls - 1)).


(** ** A small network over the rationals

    Layer sizes [1, 2, 1], one weight sample, two data points. *)

Definition qc (z : Z) : Qc := Q2Qc (inject_Z z).

Definition ex_layers : list nat := [1; 2; 1].

Definition ex_weights : ndarray Qc := mk_nd [1; 7] (map qc [1; 2; 3; 4; 5; 6; 7]%Z).

Definition ex_inputs : ndarray Qc := mk_nd [2; 1] (map qc [1; 2]%Z).

Definition ex_targets : ndarray Qc := mk_nd [2; 1] (map qc [10; 20]%Z).

(** Shape and values of a result, for comparison with hand computation. *)
Definition nd_values (r : result (ndarray Qc)) : result (list nat * list Q) :=
  match r with
  | Ok a => Ok (shape a, map this (data a))
  | Raise e => Raise e
  end.

(** The same data points in the other order. *)
Definition ex_perm : list nat := [1; 0].

(** An empty data set. *)
Definition ex_no_inputs : ndarray Qc := mk_nd [0; 1] [].

Definition ex_no_targets : ndarray Qc := mk_nd [0; 1] [].

(** Predictions with two output columns that differ in column 1 only. *)
Definition ex_preds2 : ndarray Qc := mk_nd [1; 2; 2] (map qc [1; 5; 2; 6]%Z).

Definition ex_preds2' : ndarray Qc := mk_nd [1; 2; 2] (map qc [1; 9; 2; 8]%Z).

(** ** Further operations and data, for the properties of Part IV *)

Section MoreArrays.

Context {F : Type} `{Scalar F}.

(** [a[:, p]] for a list [p] of positions on axis 1, each below the axis
    length (numpy raises otherwise); an array with fewer than two axes is
    left as it is. *)
Definition take_axis1 (p : list nat) (a : ndarray F) : ndarray F :=
  match shape a with
  | d0 :: _ :: rest =>
      build (d0 :: length p :: rest)
        (fun idx => match idx with
                    | i :: k :: r => get a (i :: nth k p 0 :: r)
                    | _ => s0
                    end)
  | _ => a
  end.

(** [np.expand_dims(a, 1)], as the plotting callback applies it to the
    1-D grid of inputs. *)
Definition expand_dims1 (a : ndarray F) : result (ndarray F) :=
  match shape a with
  | d0 :: rest => Ok (mk_nd (d0 :: 1 :: rest) (data a))
  | [] => Raise AxisError
  end.

(** The generator that yields the items of a list and then raises. *)
Fixpoint gen_raising {A : Type} (l : list A) (e : pyerr) : gen A :=
  match l with
  | [] => GRaise e
  | a :: l' => GYield a (gen_raising l' e)
  end.

(** The likelihood term of one sample when every prediction is compared
    with the one target [t]. *)
Definition log_lik_single_target (noise_variance : F) (preds : ndarray F)
  (t : F) (N s : nat) : F :=
  sdiv (sneg (sum_list
                (map (fun j => spow2 (ssub (get preds [s; j; 0]) t))
                     (seq 0 N))))
       noise_variance.

(** The items have the shapes a schedule with the layer pairs [shp] asks
    for: a well-formed (S, m, n) matrix and (S, 1, n) bias per pair. *)
Fixpoint pairs_fit (S : nat) (shp : list (nat * nat))
  (items : list (ndarray F * ndarray F)) : Prop :=
  match shp, items with
  | [], [] => True
  | (m, n) :: shp', (W, b) :: items' =>
      wf W /\ shape W = [S; m; n] /\ wf b /\ shape b = [S; 1; n] /\
      pairs_fit S shp' items'
  | _, _ => False
  end.

(** Column [j] of the flat weight row of sample [s] that stores the items:
    each matrix row-major, then its bias. *)
Fixpoint flat_get (shp : list (nat * nat))
  (items : list (ndarray F * ndarray F)) (s j : nat) : F :=
  match shp, items with
  | (m, n) :: shp', (W, b) :: items' =>
      if j <? m * n then get W [s; j / n; j mod n]
      else if j <? (m + 1) * n then get b [s; 0; j - m * n]
      else flat_get shp' items' s (j - (m + 1) * n)
  | _, _ => s0
  end.

End MoreArrays.

(** Number of weight columns the layer pairs [shp] consume. *)
Definition columns_needed (shp : list (nat * nat)) : nat :=
  py_sum (map (fun mn => (fst mn + 1) * snd mn) shp).

(** More data over the rationals: a weight batch with one column too many,
    one with a column missing, two weight samples, a selection of samples
    and of data points, 1-D inputs and targets, inputs with three features,
    three targets. *)

Definition ex_weights_wide : ndarray Qc :=
  mk_nd [1; 8] (map qc [1; 2; 3; 4; 5; 6; 7; 100]%Z).

Definition ex_weights_narrow : ndarray Qc :=
  mk_nd [1; 6] (map qc [1; 2; 3; 4; 5; 6]%Z).

Definition ex_two_samples : ndarray Qc :=
  mk_nd [2; 7] (map qc [1; 2; 3; 4; 5; 6; 7; 0; 1; 0; 1; 0; 1; 0]%Z).

Definition ex_selection : list nat := [1; 1; 0].

Definition ex_inputs_1d : ndarray Qc := mk_nd [2] (map qc [1; 2]%Z).

Definition ex_targets_1d : ndarray Qc := mk_nd [2] (map qc [10; 20]%Z).

Definition ex_inputs_3_features : ndarray Qc :=
  mk_nd [2; 3] (map qc [1; 2; 3; 4; 5; 6]%Z).

Definition ex_three_targets : ndarray Qc := mk_nd [3; 1] (map qc [10; 20; 30]%Z).

(** The matrix and the bias of a linear model, given as a pair. *)
Definition ex_linear_items : list (ndarray Qc * ndarray Qc) :=
  [(mk_nd [1; 2; 1] (map qc [1; 2]%Z), mk_nd [1; 1; 1] (map qc [3]%Z))].

(** A linear model with two inputs and one output, and its three weights. *)
Definition ex_linear_layers : list nat := [2; 1].

Definition ex_linear_weights : ndarray Qc := mk_nd [1; 3] (map qc [1; 2; 3]%Z).

(** ** Data in binary64 arithmetic

    A network [y = w * x + b] with [w = 1] and [b = 0]; three data points,
    one of them large; the same data points in another order; a weight so
    small that its square underflows; an infinite input. *)

Definition fl_layers : list nat := [1; 1].

Definition fl_weights : ndarray float := mk_nd [1; 2] [1%float; 0%float].

Definition fl_inputs : ndarray float :=
  mk_nd [3; 1] [100000000%float; 1%float; 1%float].

Definition fl_targets : ndarray float := mk_nd [3; 1] [0%float; 0%float; 0%float].

Definition fl_perm : list nat := [1; 2; 0].

Definition fl_tiny_weights : ndarray float :=
  mk_nd [1; 2] [0x1p-600%float; 0%float].

Definition fl_inf_inputs : ndarray float := mk_nd [2; 1] [infinity; 2%float].

Definition fl_finite_inputs : ndarray float :=
  mk_nd [2; 1] [1.5%float; (-2)%float].

(* ================================================================== *)
(** * Part II: properties *)
(* ================================================================== *)

(** ** The small network, computed

    Weights 1 .. 7 give the first layer [h = x * [1, 2] + [3, 4]] and the
    second [y = 5 * h0 + 6 * h1 + 7]: with the identity as nonlinearity,
    [x = 1] gives 63 and [x = 2] gives 80. *)

Example ex_unpack_shapes :
  gen_items (unpack_layers ex_layers ex_weights)
  = Ok [(mk_nd [1; 1; 2] (map qc [1; 2]%Z), mk_nd [1; 1; 2] (map qc [3; 4]%Z));
        (mk_nd [1; 2; 1] (map qc [5; 6]%Z), mk_nd [1; 1; 1] (map qc [7]%Z))].
Proof. reflexivity. Qed.

Example ex_predictions_values :
  nd_values (predictions ex_layers (fun x => x) ex_weights ex_inputs)
  = Ok ([1; 2; 1], [63 # 1; 80 # 1]%Q).
Proof. vm_compute. reflexivity. Qed.

(** Prior [-1 * (1 + 4 + ... + 49) = -140], likelihood
    [-((63 - 10)^2 + (80 - 20)^2) / 2 = -6409 / 2]. *)
Example ex_logprob_values :
  nd_values (logprob ex_layers (qc 1) (qc 2) (fun x => x)
               ex_weights ex_inputs ex_targets)
  = Ok ([1], [-6689 # 2]%Q).
Proof. vm_compute. reflexivity. Qed.

(** A weight batch that is too narrow makes the first reshape fail. *)
Example ex_narrow_weights :
  predictions ex_layers (fun x => x) (mk_nd [1; 1] [qc 1]) ex_inputs
  = Raise ValueError.
Proof. reflexivity. Qed.

(** Without a layer pair the loop body never runs and [outputs] is unbound. *)
Example ex_no_layer :
  predictions [1] (fun x => x) ex_weights ex_inputs = Raise UnboundLocalError.
Proof. reflexivity. Qed.

(** ** Row-major order *)

Lemma length_flat_map_const (A : Type) (g : nat -> list A) (c : nat) :
  (forall i, length (g i) = c) ->
  forall d a, length (flat_map g (seq a d)) = d * c.
Proof.
  intros Hg d; induction d as [|d IH]; intros a; simpl.
  - reflexivity.
  - rewrite length_app, Hg, IH. reflexivity.
Qed.

Lemma nth_flat_map_blocks (A : Type) (g : nat -> list A) (c : nat) (dflt : A) :
  (forall i, length (g i) = c) ->
  forall d a i r, i < d -> r < c ->
  nth (i * c + r) (flat_map g (seq a d)) dflt = nth r (g (a + i)) dflt.
Proof.
  intros Hg d; induction d as [|d IH]; intros a i r Hi Hr.
  - lia.
  - simpl. destruct i as [|i].
    + simpl. rewrite app_nth1 by (rewrite Hg; exact Hr).
      rewrite Nat.add_0_r. reflexivity.
    + rewrite app_nth2 by (rewrite Hg; simpl; lia).
      rewrite Hg.
      replace (S i * c + r - c) with (i * c + r) by (simpl; lia).
      rewrite IH by lia.
      replace (S a + i) with (a + S i) by lia. reflexivity.
Qed.

Lemma length_indices (sh : list nat) : length (indices sh) = numel sh.
Proof.
  induction sh as [|d sh IH]; simpl.
  - reflexivity.
  - apply length_flat_map_const. intros i. rewrite length_map. exact IH.
Qed.

Lemma ravel_lt (sh idx : list nat) :
  in_bounds sh idx -> ravel sh idx < numel sh.
Proof.
  unfold in_bounds. intros Hb. induction Hb as [|i d idx sh Hi Hb IH]; simpl.
  - lia.
  - nia.
Qed.

Lemma nth_ravel_indices (sh idx dflt : list nat) :
  in_bounds sh idx -> nth (ravel sh idx) (indices sh) dflt = idx.
Proof.
  unfold in_bounds. intros Hb. induction Hb as [|i d idx sh Hi Hb IH]; simpl.
  - reflexivity.
  - rewrite (@nth_flat_map_blocks _ _ (numel sh)).
    + simpl. rewrite <- (IH) at 2.
      erewrite nth_indep.
      * apply (map_nth (cons i)).
      * rewrite length_map, length_indices. apply ravel_lt. exact Hb.
    + intros. rewrite length_map. apply length_indices.
    + exact Hi.
    + apply ravel_lt. exact Hb.
Qed.

Lemma in_indices (sh idx : list nat) :
  In idx (indices sh) -> in_bounds sh idx.
Proof.
  unfold in_bounds. revert idx. induction sh as [|d sh IH]; simpl; intros idx Hin.
  - destruct Hin as [<- | []]. constructor.
  - apply in_flat_map in Hin. destruct Hin as [i [Hi Hin]].
    apply in_map_iff in Hin. destruct Hin as [idx' [<- Hin]].
    apply in_seq in Hi. constructor; [lia | apply IH; exact Hin].
Qed.

Lemma map_add_seq (k c a : nat) :
  map (Nat.add k) (seq a c) = seq (k + a) c.
Proof.
  revert a. induction c as [|c IH]; intros a; simpl.
  - reflexivity.
  - rewrite IH. f_equal. f_equal. lia.
Qed.

Lemma seq_blocks (c d : nat) :
  flat_map (fun i => map (Nat.add (i * c)) (seq 0 c)) (seq 0 d) = seq 0 (d * c).
Proof.
  induction d as [|d IH].
  - reflexivity.
  - rewrite seq_S, flat_map_app, IH. simpl. rewrite app_nil_r.
    rewrite Nat.add_comm, seq_app. f_equal.
    rewrite map_add_seq. f_equal. lia.
Qed.

Lemma map_ravel_indices (sh : list nat) :
  map (ravel sh) (indices sh) = seq 0 (numel sh).
Proof.
  induction sh as [|d sh IH]; simpl.
  - reflexivity.
  - rewrite <- seq_blocks.
    rewrite flat_map_concat_map, concat_map, map_map, <- flat_map_concat_map.
    apply flat_map_ext. intros i.
    rewrite map_map. simpl. rewrite <- IH, map_map. reflexivity.
Qed.

(** ** Arrays: elements of the result of each operation *)

Lemma in_bounds_nil (idx : list nat) : in_bounds [] idx <-> idx = [].
Proof.
  unfold in_bounds. split.
  - intros Hb. inversion Hb. reflexivity.
  - intros ->. constructor.
Qed.

Lemma in_bounds_cons (d : nat) (sh idx : list nat) :
  in_bounds (d :: sh) idx <->
  exists i idx', idx = i :: idx' /\ i < d /\ in_bounds sh idx'.
Proof.
  unfold in_bounds. split.
  - intros Hb. inversion Hb; subst. eauto.
  - intros [i [idx' [-> [Hi Hb]]]]. constructor; assumption.
Qed.

Ltac inv_bounds H :=
  repeat match type of H with
         | in_bounds (_ :: _) _ =>
             let i := fresh "i" in
             let r := fresh "r" in
             let Hi := fresh "Hi" in
             apply in_bounds_cons in H;
             destruct H as [i [r [-> [Hi H]]]]
         | in_bounds [] ?r => apply in_bounds_nil in H; subst r
         end.

Ltac solve_bounds :=
  repeat (apply Forall2_cons; [lia || nia || assumption | ]);
  try apply Forall2_nil.

Lemma bidx_in_bounds (sh idx : list nat) :
  in_bounds sh idx -> bidx sh idx = idx.
Proof.
  unfold in_bounds, bidx. intros Hb.
  rewrite (Forall2_length Hb), Nat.sub_diag. simpl.
  induction Hb as [|i d idx sh Hi Hb IH]; simpl.
  - reflexivity.
  - rewrite IH. destruct (Nat.eqb_spec d 1); [f_equal; lia | reflexivity].
Qed.

Lemma bdim_refl (a : nat) : bdim a a = Some a.
Proof. unfold bdim. rewrite Nat.eqb_refl. reflexivity. Qed.

Lemma bdim_1_r (a : nat) : bdim a 1 = Some a.
Proof.
  unfold bdim. destruct (Nat.eqb_spec a 1) as [->|Ha]; [reflexivity|].
  reflexivity.
Qed.

Lemma bdim_1_l (a : nat) : bdim 1 a = Some a.
Proof.
  unfold bdim. destruct (Nat.eqb_spec 1 a) as [<-|Ha]; reflexivity.
Qed.

Lemma py_sum_shift (l : list nat) (a : nat) :
  fold_left Nat.add l a = a + py_sum l.
Proof.
  unfold py_sum. revert a. induction l as [|x l IH]; intros a; simpl.
  - lia.
  - rewrite (IH (a + x)), (IH x). lia.
Qed.

Lemma py_sum_cons (x : nat) (l : list nat) : py_sum (x :: l) = x + py_sum l.
Proof. unfold py_sum at 1. simpl. apply py_sum_shift. Qed.

Lemma py_sum_app (l1 l2 : list nat) : py_sum (l1 ++ l2) = py_sum l1 + py_sum l2.
Proof.
  induction l1 as [|x l1 IH]; simpl.
  - reflexivity.
  - rewrite !py_sum_cons, IH. lia.
Qed.

Section ArrayFacts.

Context {F : Type} `{Scalar F}.

Lemma shape_build (sh : list nat) (f : list nat -> F) : shape (build sh f) = sh.
Proof. reflexivity. Qed.

Lemma wf_build (sh : list nat) (f : list nat -> F) : wf (build sh f).
Proof. unfold wf, build. simpl. rewrite length_map. apply length_indices. Qed.

Lemma get_build (sh idx : list nat) (f : list nat -> F) :
  in_bounds sh idx -> get (build sh f) idx = f idx.
Proof.
  intros Hb. unfold get, build. simpl.
  rewrite (nth_indep _ s0 (f [])).
  - rewrite map_nth. rewrite nth_ravel_indices by exact Hb. reflexivity.
  - rewrite length_map, length_indices. apply ravel_lt. exact Hb.
Qed.

Lemma build_ext (sh : list nat) (f g : list nat -> F) :
  (forall idx, in_bounds sh idx -> f idx = g idx) -> build sh f = build sh g.
Proof.
  intros Hfg. unfold build. f_equal. apply map_ext_in.
  intros idx Hin. apply Hfg. apply in_indices. exact Hin.
Qed.

Lemma build_get (a : ndarray F) : wf a -> build (shape a) (get a) = a.
Proof.
  destruct a as [sh l]. unfold wf, build, get. simpl. intros Hlen. f_equal.
  rewrite <- (map_map (ravel sh) (fun k => nth k l s0)).
  rewrite map_ravel_indices, <- Hlen.
  apply nth_ext with (d := s0) (d' := s0).
  - rewrite length_map, length_seq. reflexivity.
  - intros k Hk. rewrite length_map, length_seq in Hk.
    rewrite (nth_indep _ s0 (nth 0 l s0)) by (rewrite length_map, length_seq; exact Hk).
    rewrite (map_nth (fun k => nth k l s0)), seq_nth by exact Hk. reflexivity.
Qed.

(** Two well-formed arrays of one shape with equal elements are equal. *)
Lemma nd_ext (a b : ndarray F) :
  wf a -> wf b -> shape a = shape b ->
  (forall idx, in_bounds (shape a) idx -> get a idx = get b idx) ->
  a = b.
Proof.
  intros Ha Hb Hsh Hget.
  rewrite <- (build_get Ha), <- (build_get Hb), <- Hsh.
  apply build_ext. exact Hget.
Qed.

Lemma nd_eq_build (a : ndarray F) (sh : list nat) (f : list nat -> F) :
  wf a -> shape a = sh ->
  (forall idx, in_bounds sh idx -> get a idx = f idx) ->
  a = build sh f.
Proof.
  intros Ha Hsh Hget. subst sh. apply nd_ext.
  - exact Ha.
  - apply wf_build.
  - reflexivity.
  - intros idx Hb. rewrite get_build by exact Hb. apply Hget. exact Hb.
Qed.

Lemma map_nd_build (g : F -> F) (sh : list nat) (f : list nat -> F) :
  map_nd g (build sh f) = build sh (fun idx => g (f idx)).
Proof. unfold map_nd, build. simpl. rewrite map_map. reflexivity. Qed.

Lemma get_zeros (sh idx : list nat) : get (zeros sh) idx = s0.
Proof.
  unfold get, zeros, build. simpl.
  generalize (ravel sh idx) as k. generalize (indices sh) as l.
  induction l as [|x l IH]; intros [|k]; simpl; auto.
Qed.

End ArrayFacts.

(** ** Unpacking: the generator yields the blocks of the weight rows *)

Section UnpackFacts.

Context {F : Type} `{Scalar F}.

Lemma colblock_all (w : ndarray F) (S W : nat) :
  wf w -> shape w = [S; W] -> colblock w S 0 W = w.
Proof.
  intros Hw Hsh. symmetry. apply nd_eq_build; [exact Hw | exact Hsh |].
  intros idx Hb. inv_bounds Hb. reflexivity.
Qed.

Lemma get_colblock (w : ndarray F) (S off c s j : nat) :
  s < S -> j < c -> get (colblock w S off c) [s; j] = get w [s; off + j].
Proof.
  intros Hs Hj. unfold colblock. rewrite get_build by solve_bounds. reflexivity.
Qed.

Lemma slice_colblock (w : ndarray F) (S off R lo hi c off' : nat) :
  lo <= hi -> hi <= R -> c = hi - lo -> off' = off + lo ->
  slice_axis1 lo (Some hi) (colblock w S off R) = Ok (colblock w S off' c).
Proof.
  intros Hlo Hhi -> ->. unfold slice_axis1.
  change (shape (colblock w S off R)) with [S; R]. cbv beta iota zeta.
  rewrite (Nat.min_l lo R), (Nat.min_l hi R) by lia.
  f_equal. apply build_ext. intros idx Hb. inv_bounds Hb.
  rewrite get_colblock by lia. simpl.
  replace (off + (lo + i0)) with (off + lo + i0) by lia. reflexivity.
Qed.

Lemma slice_colblock_tail (w : ndarray F) (S off R lo c off' : nat) :
  lo <= R -> c = R - lo -> off' = off + lo ->
  slice_axis1 lo None (colblock w S off R) = Ok (colblock w S off' c).
Proof.
  intros Hlo -> ->. unfold slice_axis1.
  change (shape (colblock w S off R)) with [S; R]. cbv beta iota zeta.
  rewrite (Nat.min_l lo R) by lia.
  f_equal. apply build_ext. intros idx Hb. inv_bounds Hb.
  rewrite get_colblock by lia. simpl.
  replace (off + (lo + i0)) with (off + lo + i0) by lia. reflexivity.
Qed.

Lemma reshape_ok (a : ndarray F) (sh : list nat) :
  numel sh = numel (shape a) -> reshape a sh = Ok (mk_nd sh (data a)).
Proof. intros Hn. unfold reshape. rewrite Hn, Nat.eqb_refl. reflexivity. Qed.

Lemma wf_mk_nd (a : ndarray F) (sh : list nat) :
  wf a -> numel sh = numel (shape a) -> wf (mk_nd sh (data a)).
Proof. unfold wf. simpl. intros -> ->. reflexivity. Qed.

Lemma reshape_weight_matrix (w : ndarray F) (S m n off : nat) :
  reshape (colblock w S off (m * n)) [S; m; n] = Ok (weight_matrix w S m n off).
Proof.
  rewrite reshape_ok by (simpl; lia). f_equal.
  apply nd_eq_build.
  - apply wf_mk_nd; [apply wf_build | simpl; lia].
  - reflexivity.
  - intros idx Hb. inv_bounds Hb. rename i into s, i0 into d, i1 into o.
    transitivity (get (colblock w S off (m * n)) [s; d * n + o]).
    + unfold get. simpl. f_equal. lia.
    + apply get_colblock; [assumption | nia].
Qed.

Lemma reshape_bias_vector (w : ndarray F) (S m n off : nat) :
  reshape (colblock w S (off + m * n) n) [S; 1; n] = Ok (bias_vector w S m n off).
Proof.
  rewrite reshape_ok by (simpl; lia). f_equal.
  apply nd_eq_build.
  - apply wf_mk_nd; [apply wf_build | simpl; lia].
  - reflexivity.
  - intros idx Hb. inv_bounds Hb. rename i into s, i0 into d, i1 into o.
    transitivity (get (colblock w S (off + m * n) n) [s; o]).
    + unfold get. simpl. f_equal. lia.
    + apply get_colblock; assumption.
Qed.

Lemma unpack_loop_cons (S m n : nat) (shp : list (nat * nat)) (w : ndarray F) :
  unpack_loop S ((m, n) :: shp) w =
  match (s <- slice_axis1 0 (Some (m * n)) w ;; reshape s [S; m; n]) with
  | Raise e => GRaise e
  | Ok W =>
      match (s <- slice_axis1 (m * n) (Some (m * n + n)) w ;;
             reshape s [S; 1; n]) with
      | Raise e => GRaise e
      | Ok b =>
          GYield (W, b)
            (match slice_axis1 ((m + 1) * n) None w with
             | Ok w' => unpack_loop S shp w'
             | Raise e => GRaise e
             end)
      end
  end.
Proof. reflexivity. Qed.

Lemma unpack_loop_colblock (w : ndarray F) (S : nat) (shp : list (nat * nat)) :
  forall off R,
    py_sum (map (fun mn => (fst mn + 1) * snd mn) shp) <= R ->
    unpack_loop S shp (colblock w S off R) = gen_of_list (pairs_at w S shp off).
Proof.
  induction shp as [|[m n] shp IH]; intros off R HR.
  - reflexivity.
  - simpl map in HR. rewrite py_sum_cons in HR. simpl fst in HR. simpl snd in HR.
    rewrite unpack_loop_cons.
    rewrite (@slice_colblock w S off R 0 (m * n) (m * n) off) by lia.
    unfold bind at 1. rewrite reshape_weight_matrix.
    rewrite (@slice_colblock w S off R (m * n) (m * n + n) n (off + m * n)) by lia.
    unfold bind at 1. rewrite reshape_bias_vector.
    rewrite (@slice_colblock_tail w S off R ((m + 1) * n)
               (R - (m + 1) * n) (off + (m + 1) * n)) by lia.
    simpl. f_equal. apply IH. lia.
Qed.

Lemma unpack_layers_pairs (ls : list nat) (w : ndarray F) (S W : nat) :
  wf w -> shape w = [S; W] -> num_weights ls <= W ->
  unpack_layers ls w = gen_of_list (pairs_at w S (shapes ls) 0).
Proof.
  intros Hw Hsh HW. unfold unpack_layers, len. rewrite Hsh.
  rewrite <- (colblock_all Hw Hsh) at 1.
  apply unpack_loop_colblock. exact HW.
Qed.

Lemma gen_items_of_list (A : Type) (l : list A) : gen_items (gen_of_list l) = Ok l.
Proof.
  induction l as [|a l IH]; simpl.
  - reflexivity.
  - rewrite IH. reflexivity.
Qed.

End UnpackFacts.

(** ** The forward pass, element by element *)

Lemma shapes_cons2 (a b : nat) (ls : list nat) :
  shapes (a :: b :: ls) = (a, b) :: shapes (b :: ls).
Proof. reflexivity. Qed.

Lemma chain_shapes (ls : list nat) : forall a, chain a (shapes (a :: ls)).
Proof.
  induction ls as [|b ls IH]; intros a.
  - exact I.
  - rewrite shapes_cons2. split; [reflexivity | apply IH].
Qed.

Lemma out_width_shapes (ls : list nat) :
  forall a, out_width a (shapes (a :: ls)) = last (a :: ls) 0.
Proof.
  induction ls as [|b ls IH]; intros a.
  - reflexivity.
  - rewrite shapes_cons2. simpl out_width. rewrite IH. reflexivity.
Qed.

Lemma length_shapes (ls : list nat) : length (shapes ls) = length ls - 1.
Proof.
  destruct ls as [|a ls]; [reflexivity|].
  revert a. induction ls as [|b ls IH]; intros a.
  - reflexivity.
  - rewrite shapes_cons2. simpl length. rewrite IH. simpl. lia.
Qed.

Lemma broadcast_shapes_bias (S N n : nat) :
  broadcast_shapes [S; N; n] [S; 1; n] = Some [S; N; n].
Proof.
  unfold broadcast_shapes. simpl.
  rewrite !bdim_refl, bdim_1_r. reflexivity.
Qed.

Lemma bidx3 (a b c i j k : nat) :
  bidx [a; b; c] [i; j; k] =
  [if a =? 1 then 0 else i; if b =? 1 then 0 else j; if c =? 1 then 0 else k].
Proof. reflexivity. Qed.

Section ForwardFacts.

Context {F : Type} `{Scalar F}.

Variable f : F -> F.
Variable w : ndarray F.
Variables S N : nat.

Lemma get_weight_matrix (m n off s d o : nat) :
  s < S -> d < m -> o < n ->
  get (weight_matrix w S m n off) [s; d; o] = get w [s; off + (d * n + o)].
Proof.
  intros Hs Hd Ho. unfold weight_matrix.
  rewrite get_build by solve_bounds. reflexivity.
Qed.

Lemma get_bias_vector (m n off s o : nat) :
  s < S -> o < n ->
  get (bias_vector w S m n off) [s; 0; o] = get w [s; off + m * n + o].
Proof.
  intros Hs Ho. unfold bias_vector.
  rewrite get_build by solve_bounds. reflexivity.
Qed.

(** One layer: the pre-activation computed from an input array [x] that
    holds [X s j c], possibly broadcast over the samples. *)
Lemma preactivation_elem (x : ndarray F) (S' m n off : nat)
  (X : nat -> nat -> nat -> F) :
  shape x = [S'; N; m] ->
  bdim S' S = Some S ->
  (forall s j c, s < S -> j < N -> c < m ->
     get x (bidx [S'; N; m] [s; j; c]) = X s j c) ->
  preactivation x (weight_matrix w S m n off) (bias_vector w S m n off) =
  Ok (build [S; N; n]
        (fun3 (fun s j o => layer_out m n off (fun c => get w [s; c]) (X s j) o))).
Proof.
  intros Hsh HbS HX. unfold preactivation, einsum_mnd_mdo_mno.
  rewrite Hsh. change (shape (weight_matrix w S m n off)) with [S; m; n].
  cbv beta iota. rewrite HbS, bdim_refl. unfold bind. unfold broadcast2.
  rewrite shape_build.
  change (shape (bias_vector w S m n off)) with [S; 1; n].
  rewrite broadcast_shapes_bias. f_equal.
  apply build_ext. intros idx Hb. inv_bounds Hb.
  rename i into s, i0 into j, i1 into o.
  rewrite (@bidx_in_bounds [S; N; n]) by solve_bounds.
  rewrite get_build by solve_bounds.
  rewrite bidx3, Nat.eqb_refl.
  replace (if S =? 1 then 0 else s) with s
    by (destruct (Nat.eqb_spec S 1); lia).
  replace (if n =? 1 then 0 else o) with o
    by (destruct (Nat.eqb_spec n 1); lia).
  rewrite get_bias_vector by assumption.
  unfold fun3, layer_out. f_equal. f_equal.
  apply map_ext_in. intros c Hc. apply in_seq in Hc.
  rewrite HX by lia.
  rewrite (@bidx_in_bounds [S; m; n]) by solve_bounds.
  rewrite get_weight_matrix by lia. reflexivity.
Qed.

Lemma predictions_loop_pairs (shp : list (nat * nat)) :
  forall (m off : nat) (x : ndarray F) (S' : nat)
         (X : nat -> nat -> nat -> F) (outs : option (ndarray F)),
    chain m shp -> shp <> [] ->
    shape x = [S'; N; m] ->
    bdim S' S = Some S ->
    (forall s j c, s < S -> j < N -> c < m ->
       get x (bidx [S'; N; m] [s; j; c]) = X s j c) ->
    predictions_loop f (gen_of_list (pairs_at w S shp off)) x outs =
    Ok (build [S; N; out_width m shp]
          (fun3 (fun s j o => net f shp off (fun c => get w [s; c]) (X s j) o))).
Proof.
  induction shp as [|[m' n] shp IH]; intros m off x S' X outs Hch Hne Hsh HbS HX.
  - congruence.
  - destruct Hch as [-> Hch].
    change (pairs_at w S ((m, n) :: shp) off)
      with ((weight_matrix w S m n off, bias_vector w S m n off)
              :: pairs_at w S shp (off + (m + 1) * n)).
    change (predictions_loop f (gen_of_list (?p :: ?l)) x outs)
      with (o <- preactivation x (fst p) (snd p) ;;
            predictions_loop f (gen_of_list l) (map_nd f o) (Some o)).
    cbv beta. simpl fst. simpl snd.
    rewrite (@preactivation_elem x S' m n off X Hsh HbS HX).
    unfold bind.
    destruct shp as [|p shp].
    + reflexivity.
    + rewrite map_nd_build.
      erewrite IH.
      * reflexivity.
      * exact Hch.
      * discriminate.
      * reflexivity.
      * apply bdim_refl.
      * intros s j c Hs Hj Hc.
        rewrite (@bidx_in_bounds [S; N; n]) by solve_bounds.
        rewrite get_build by solve_bounds. reflexivity.
Qed.

Lemma get_expand_dims0 (a : ndarray F) (s j c D : nat) :
  shape a = [N; D] -> j < N -> c < D ->
  get (expand_dims0 a) (bidx [1; N; D] [s; j; c]) = get a [j; c].
Proof.
  intros Hsh Hj Hc. rewrite bidx3. simpl (1 =? 1).
  replace (if N =? 1 then 0 else j) with j
    by (destruct (Nat.eqb_spec N 1); lia).
  replace (if D =? 1 then 0 else c) with c
    by (destruct (Nat.eqb_spec D 1); lia).
  unfold get, expand_dims0. simpl. rewrite Hsh. reflexivity.
Qed.

(** Closed form of [predictions] on well-shaped arguments. *)
Lemma predictions_closed (ls : list nat) (inputs : ndarray F) (W D : nat) :
  wf w -> shape w = [S; W] -> num_weights ls <= W ->
  shape inputs = [N; D] ->
  2 <= length ls -> hd 0 ls = D ->
  predictions ls f w inputs =
  Ok (build [S; N; last ls 0]
        (fun3 (fun s j o =>
                 net f (shapes ls) 0 (fun c => get w [s; c])
                     (fun c => get inputs [j; c]) o))).
Proof.
  intros Hw Hsh HW Hin Hlen Hhd.
  destruct ls as [|a [|b ls]]; try (simpl in Hlen; lia).
  simpl in Hhd. subst a.
  unfold predictions. rewrite (unpack_layers_pairs _ Hw Hsh HW).
  rewrite <- out_width_shapes.
  apply predictions_loop_pairs with (S' := 1).
  - apply chain_shapes.
  - rewrite shapes_cons2. discriminate.
  - unfold expand_dims0. simpl. rewrite Hin. reflexivity.
  - apply bdim_1_l.
  - intros s j c Hs Hj Hc. apply get_expand_dims0; assumption.
Qed.

End ForwardFacts.

(** ** The log-posterior, element by element *)

Lemma broadcast_shapes_targets (S N O : nat) :
  broadcast_shapes [S; N; O] [N; 1] = Some [S; N; O].
Proof.
  unfold broadcast_shapes. simpl.
  rewrite bdim_refl, bdim_1_r. reflexivity.
Qed.

Lemma broadcast_shapes_vec (S : nat) : broadcast_shapes [S] [S] = Some [S].
Proof. unfold broadcast_shapes. simpl. rewrite bdim_refl. reflexivity. Qed.

Section LogprobFacts.

Context {F : Type} `{Scalar F}.

Lemma shape_map_nd (g : F -> F) (a : ndarray F) : shape (map_nd g a) = shape a.
Proof. reflexivity. Qed.

Lemma wf_map_nd (g : F -> F) (a : ndarray F) : wf a -> wf (map_nd g a).
Proof. unfold wf, map_nd. simpl. rewrite length_map. trivial. Qed.

Lemma get_map_nd (g : F -> F) (a : ndarray F) (idx : list nat) :
  wf a -> in_bounds (shape a) idx -> get (map_nd g a) idx = g (get a idx).
Proof.
  intros Ha Hb. rewrite <- (build_get Ha) at 1.
  rewrite map_nd_build, get_build by exact Hb. reflexivity.
Qed.

Lemma log_prior_closed (L2_reg : F) (w : ndarray F) (S W : nat) :
  wf w -> shape w = [S; W] ->
  log_prior L2_reg w = Ok (build [S] (fun1 (log_prior_at L2_reg w W))).
Proof.
  intros Hw Hsh. unfold log_prior, sum_axis1.
  rewrite shape_map_nd, Hsh. unfold bind. rewrite map_nd_build. f_equal.
  apply build_ext. intros idx Hb. inv_bounds Hb. rename i into s.
  unfold fun1, log_prior_at. f_equal. f_equal.
  apply map_ext_in. intros c Hc. apply in_seq in Hc.
  apply get_map_nd; [exact Hw | rewrite Hsh; solve_bounds].
Qed.

Lemma log_lik_closed (noise_variance : F) (preds targets : ndarray F)
  (S N O : nat) :
  shape preds = [S; N; O] -> shape targets = [N; 1] -> 1 <= O ->
  log_lik noise_variance preds targets =
  Ok (build [S] (fun1 (log_lik_at noise_variance preds targets N))).
Proof.
  intros Hp Ht HO. unfold log_lik, broadcast2.
  rewrite Hp, Ht, broadcast_shapes_targets. unfold bind at 1.
  rewrite map_nd_build. unfold sum_axis1. rewrite shape_build.
  unfold bind at 1. unfold index_axis1_0. rewrite shape_build.
  destruct (Nat.eqb_spec O 0) as [HO0|_]; [lia|].
  unfold bind. rewrite map_nd_build. f_equal.
  apply build_ext. intros idx Hb. inv_bounds Hb. rename i into s.
  rewrite get_build by solve_bounds.
  unfold fun1, log_lik_at. f_equal. f_equal. f_equal.
  apply map_ext_in. intros j Hj. apply in_seq in Hj.
  rewrite get_build by solve_bounds.
  rewrite (@bidx_in_bounds [S; N; O]) by solve_bounds.
  change (bidx [N; 1] [s; j; 0]) with [if N =? 1 then 0 else j; 0].
  replace (if N =? 1 then 0 else j) with j
    by (destruct (Nat.eqb_spec N 1); lia).
  reflexivity.
Qed.

Lemma add_vectors (S : nat) (g h : nat -> F) :
  broadcast2 sadd (build [S] (fun1 g)) (build [S] (fun1 h)) =
  Ok (build [S] (fun1 (fun s => sadd (g s) (h s)))).
Proof.
  unfold broadcast2. rewrite !shape_build, broadcast_shapes_vec. f_equal.
  apply build_ext. intros idx Hb. inv_bounds Hb. rename i into s.
  rewrite (@bidx_in_bounds [S]) by solve_bounds.
  rewrite !get_build by solve_bounds. reflexivity.
Qed.

(** Closed form of [logprob] on well-shaped arguments. *)
Lemma logprob_closed (ls : list nat) (L2_reg noise_variance : F) (f : F -> F)
  (w inputs targets preds : ndarray F) (S W N O : nat) :
  wf w -> shape w = [S; W] ->
  predictions ls f w inputs = Ok preds ->
  shape preds = [S; N; O] -> shape targets = [N; 1] -> 1 <= O ->
  logprob ls L2_reg noise_variance f w inputs targets =
  Ok (build [S]
        (fun1 (fun s => sadd (log_prior_at L2_reg w W s)
                             (log_lik_at noise_variance preds targets N s)))).
Proof.
  intros Hw Hsh Hpred Hp Ht HO. unfold logprob.
  rewrite (log_prior_closed L2_reg Hw Hsh). unfold bind at 1.
  rewrite Hpred. unfold bind at 1.
  rewrite (@log_lik_closed noise_variance preds targets S N O Hp Ht HO). unfold bind.
  apply add_vectors.
Qed.

End LogprobFacts.

(* ================================================================== *)
(** * Part III: the specification's claims *)
(* ================================================================== *)

Section LogPosterior.

Context {F : Type} `{Scalar F}.

(** C1: for a weight batch of shape (S, W), an input batch of shape (N, D)
    with D the first layer width and a target batch of shape (N, 1),
    [logprob] returns a 1-D array of length S whose entry for sample [s] is
    [log_prior(s) + log_lik(s)], where
    [log_prior(s) = -L2_reg * sum_w weights[s,w]^2] and
    [log_lik(s) = -(sum_n (preds[s,n,0] - targets[n,0])^2) / noise_variance]
    for the predictions [preds] of the forward pass.  It holds for every
    scalar arithmetic, the sums being accumulated in index order. *)
Theorem logprob_entries (ls : list nat) (L2_reg noise_variance : F) (f : F -> F)
  (weights inputs targets : ndarray F) (S W N D : nat) :
  wf weights -> shape weights = [S; W] -> W = num_weights ls ->
  shape inputs = [N; D] -> hd 0 ls = D ->
  shape targets = [N; 1] ->
  2 <= length ls -> 1 <= last ls 0 ->
  exists preds r,
    predictions ls f weights inputs = Ok preds /\
    shape preds = [S; N; last ls 0] /\
    logprob ls L2_reg noise_variance f weights inputs targets = Ok r /\
    shape r = [S] /\ wf r /\
    forall s, s < S ->
      get r [s] = sadd (log_prior_at L2_reg weights W s)
                       (log_lik_at noise_variance preds targets N s).
Proof.
  intros Hw Hsh HW Hin Hhd Ht Hlen Hlast.
  assert (HW' : num_weights ls <= W) by lia.
  pose proof (@predictions_closed F _ f weights S N ls inputs W D
                Hw Hsh HW' Hin Hlen Hhd) as Hpred.
  eexists. eexists. split; [exact Hpred |].
  split; [reflexivity |].
  split.
  - eapply logprob_closed; eauto using shape_build.
  - split; [reflexivity |]. split; [apply wf_build |].
    intros s Hs. rewrite get_build by solve_bounds. reflexivity.
Qed.

End LogPosterior.

Lemma logprob_entries_witness :
  exists preds r,
    predictions ex_layers (fun x => x) ex_weights ex_inputs = Ok preds /\
    shape preds = [1; 2; 1] /\
    logprob ex_layers (qc 1) (qc 2) (fun x => x) ex_weights ex_inputs ex_targets
      = Ok r /\
    shape r = [1] /\ wf r /\
    forall s, s < 1 ->
      get r [s] = sadd (log_prior_at (qc 1) ex_weights 7 s)
                       (log_lik_at (qc 2) preds ex_targets 2 s).
Proof.
  apply (@logprob_entries Qc _ ex_layers (qc 1) (qc 2) (fun x => x)
           ex_weights ex_inputs ex_targets 1 7 2 1);
    try reflexivity; simpl; lia.
Defined.

(** ** The forward pass: only hidden layers get the nonlinearity *)

Section ForwardPass.

Context {F : Type} `{Scalar F}.






End ForwardPass.


(** ** Weight unpacking *)

Lemma shapes_adjacent (ls : list nat) : shapes ls = adjacent_pairs ls.
Proof.
  unfold adjacent_pairs.
  destruct ls as [|a ls]; [reflexivity|].
  revert a. induction ls as [|b ls IH]; intros a.
  - reflexivity.
  - rewrite shapes_cons2, IH.
    change (length (a :: b :: ls) - 1) with (S (length ls)).
    change (length (b :: ls) - 1) with (length ls - 0).
    rewrite Nat.sub_0_r.
    change (seq 0 (S (length ls))) with (0 :: seq 1 (length ls)).
    rewrite <- seq_shift, map_cons, map_map. reflexivity.
Qed.

Section Unpacking.

Context {F : Type} `{Scalar F}.




End Unpacking.


(** ** Re-packing *)

Section Repacking.

Context {F : Type} `{Scalar F}.

Lemma weight_matrix_data (w : ndarray F) (S m n off : nat) :
  weight_matrix w S m n off = mk_nd [S; m; n] (data (colblock w S off (m * n))).
Proof.
  pose proof (reshape_weight_matrix w S m n off) as Hr.
  rewrite reshape_ok in Hr by (simpl; lia). congruence.
Qed.

Lemma bias_vector_data (w : ndarray F) (S m n off : nat) :
  bias_vector w S m n off = mk_nd [S; 1; n] (data (colblock w S (off + m * n) n)).
Proof.
  pose proof (reshape_bias_vector w S m n off) as Hr.
  rewrite reshape_ok in Hr by (simpl; lia). congruence.
Qed.

Lemma flatten_weight_matrix (w : ndarray F) (S m n off : nat) :
  flatten_sample (weight_matrix w S m n off) = Ok (colblock w S off (m * n)).
Proof.
  rewrite weight_matrix_data. unfold flatten_sample.
  cbn [shape]. rewrite reshape_ok by (simpl; lia). f_equal. cbn [data].
  unfold colblock, build. cbn [data]. f_equal. simpl. do 2 f_equal. lia.
Qed.

Lemma flatten_bias_vector (w : ndarray F) (S m n off : nat) :
  flatten_sample (bias_vector w S m n off) = Ok (colblock w S (off + m * n) n).
Proof.
  rewrite bias_vector_data. unfold flatten_sample.
  cbn [shape]. rewrite reshape_ok by (simpl; lia). f_equal. cbn [data].
  unfold colblock, build. cbn [data]. f_equal. simpl. do 2 f_equal. lia.
Qed.

Lemma hstack_colblock (w : ndarray F) (S off c1 c2 off' c : nat) :
  off' = off + c1 -> c = c1 + c2 ->
  hstack (colblock w S off c1) (colblock w S off' c2) = Ok (colblock w S off c).
Proof.
  intros -> ->. unfold hstack.
  change (shape (colblock w S off c1)) with [S; c1].
  change (shape (colblock w S (off + c1) c2)) with [S; c2].
  cbv beta iota. rewrite Nat.eqb_refl. f_equal.
  apply build_ext. intros idx Hb. inv_bounds Hb. rename i into s, i0 into j.
  unfold fun2. destruct (Nat.ltb_spec j c1) as [Hj|Hj].
  - apply get_colblock; assumption.
  - rewrite get_colblock by lia. f_equal. f_equal. f_equal. lia.
Qed.

Lemma concat_blocks (w : ndarray F) (S off0 : nat) (shp : list (nat * nat)) :
  forall c,
  exists l,
    flat_blocks (pairs_at w S shp (off0 + c)) = Ok l /\
    fold_left (fun acc b => x <- acc ;; hstack x b) l (Ok (colblock w S off0 c))
    = Ok (colblock w S off0
            (c + py_sum (map (fun mn => (fst mn + 1) * snd mn) shp))).
Proof.
  induction shp as [|[m n] shp IH]; intros c.
  - exists []. split; [reflexivity|]. simpl. do 2 f_equal.
    unfold py_sum. simpl. lia.
  - destruct (IH (c + (m + 1) * n)) as [l [Hl Hfold]].
    exists (colblock w S (off0 + c) (m * n)
              :: colblock w S (off0 + c + m * n) n :: l).
    split.
    + simpl. rewrite flatten_weight_matrix, flatten_bias_vector. simpl.
      replace (off0 + c + (m + 1) * n) with (off0 + (c + (m + 1) * n)) by lia.
      rewrite Hl. reflexivity.
    + simpl fold_left.
      rewrite (@hstack_colblock w S off0 c (m * n) (off0 + c) (c + m * n))
        by reflexivity.
      cbn [bind].
      rewrite (@hstack_colblock w S off0 (c + m * n) n (off0 + c + m * n)
                 (c + (m + 1) * n)) by lia.
      rewrite Hfold. do 2 f_equal. simpl map. rewrite py_sum_cons. simpl. lia.
Qed.

(** C4: unpacking a weight batch of matching width and re-packing the
    pairs (each matrix flattened to (S, m*n), each bias to (S, n), all
    blocks concatenated along the columns in schedule order) gives back
    the weight batch. *)
Theorem repack_unpack (ls : list nat) (weights : ndarray F) (S W : nat) :
  wf weights -> shape weights = [S; W] -> W = num_weights ls ->
  2 <= length ls ->
  exists items,
    gen_items (unpack_layers ls weights) = Ok items /\
    repack items = Ok weights.
Proof.
  intros Hw Hsh HW Hlen.
  assert (HW' : num_weights ls <= W) by lia.
  exists (pairs_at weights S (shapes ls) 0).
  split. { rewrite (unpack_layers_pairs ls Hw Hsh HW'). apply gen_items_of_list. }
  unfold num_weights in HW.
  destruct (shapes ls) as [|[m n] shp] eqn:Hshp.
  { pose proof (length_shapes ls) as Hl. rewrite Hshp in Hl. simpl in Hl. lia. }
  simpl map in HW. rewrite py_sum_cons in HW. simpl fst in HW. simpl snd in HW.
  destruct (@concat_blocks weights S 0 shp ((m + 1) * n)) as [l [Hl Hfold]].
  unfold repack. cbn [pairs_at flat_blocks].
  rewrite flatten_weight_matrix, flatten_bias_vector. cbn [bind].
  rewrite Hl. cbn [bind concatenate_axis1 fold_left].
  rewrite (@hstack_colblock weights S 0 (m * n) n (0 + m * n) ((m + 1) * n))
    by lia.
  rewrite Hfold. f_equal. rewrite <- HW. apply colblock_all; assumption.
Qed.

End Repacking.

Lemma repack_unpack_witness :
  exists items,
    gen_items (unpack_layers ex_layers ex_weights) = Ok items /\
    repack items = Ok ex_weights.
Proof.
  apply (@repack_unpack Qc _ ex_layers ex_weights 1 7);
    try reflexivity; simpl; lia.
Defined.

(** ** Construction *)

(** C5, as the code has it: [make_nn_funs] validates neither
    [noise_variance] nor [L2_reg]; for every value of them (a non-positive
    variance and a negative coefficient included) it raises nothing and
    returns the parameter count, the sum of (m + 1) * n over the adjacent
    layer pairs, with the two closures. *)
Theorem make_nn_funs_total (F : Type) (SF : Scalar F) (ls : list nat)
  (L2_reg noise_variance : F) (f : F -> F) :
  make_nn_funs ls L2_reg noise_variance f
  = Ok (py_sum (map (fun mn => (fst mn + 1) * snd mn) (adjacent_pairs ls)),
        predictions ls f,
        logprob ls L2_reg noise_variance f).
Proof.
  unfold make_nn_funs, num_weights. rewrite shapes_adjacent. reflexivity.
Qed.

(** C5 fails as stated: with [noise_variance = 0] and [L2_reg = -1] the
    construction returns and raises no error. *)
Lemma make_nn_funs_accepts_bad_config :
  (qc 0 <= 0)%Qc /\ (qc (-1) < 0)%Qc /\
  (forall e, make_nn_funs ex_layers (qc (-1)) (qc 0) (fun x => x) <> Raise e) /\
  make_nn_funs ex_layers (qc (-1)) (qc 0) (fun x => x)
  = Ok (7, predictions ex_layers (fun x => x),
        logprob ex_layers (qc (-1)) (qc 0) (fun x => x)).
Proof.
  split; [discriminate |].
  split; [reflexivity |].
  split; [discriminate | reflexivity].
Qed.

(** ** Only the first output column enters the likelihood *)

Section FirstColumn.

Context {F : Type} `{Scalar F}.

Lemma log_lik_at_column0 (noise_variance : F) (preds preds' targets : ndarray F)
  (N s : nat) :
  (forall j, j < N -> get preds [s; j; 0] = get preds' [s; j; 0]) ->
  log_lik_at noise_variance preds targets N s
  = log_lik_at noise_variance preds' targets N s.
Proof.
  intros Hcol. unfold log_lik_at. f_equal. f_equal. f_equal.
  apply map_ext_in. intros j Hj. apply in_seq in Hj.
  rewrite Hcol by lia. reflexivity.
Qed.

(** C10: when the last layer width O exceeds 1 and the targets have shape
    (N, 1), the likelihood term accounts for output column 0 only: the
    targets are broadcast over the O columns, the squared errors are summed
    over the data axis and column 0 is kept.  Entry [s] is
    [-(sum_n (preds[s,n,0] - targets[n,0])^2) / noise_variance], and two
    prediction arrays that agree on column 0 have the same likelihood term,
    whatever their columns 1 .. O-1 hold. *)
Theorem log_lik_first_column_only (noise_variance : F)
  (preds preds' targets : ndarray F) (S N O : nat) :
  shape preds = [S; N; O] -> shape preds' = [S; N; O] ->
  shape targets = [N; 1] -> 1 < O ->
  (forall s j, s < S -> j < N -> get preds [s; j; 0] = get preds' [s; j; 0]) ->
  log_lik noise_variance preds targets
    = Ok (build [S] (fun1 (log_lik_at noise_variance preds targets N))) /\
  log_lik noise_variance preds' targets = log_lik noise_variance preds targets.
Proof.
  intros Hp Hp' Ht HO Hcol.
  assert (HO1 : 1 <= O) by lia.
  rewrite (@log_lik_closed F _ noise_variance preds targets S N O Hp Ht HO1).
  rewrite (@log_lik_closed F _ noise_variance preds' targets S N O Hp' Ht HO1).
  split; [reflexivity |]. f_equal.
  apply build_ext. intros idx Hb. inv_bounds Hb. rename i into s.
  unfold fun1. symmetry. apply log_lik_at_column0.
  intros j Hj. apply Hcol; assumption.
Qed.

End FirstColumn.

Lemma log_lik_first_column_only_witness :
  log_lik (qc 2) ex_preds2 ex_targets
    = Ok (build [1] (fun1 (log_lik_at (qc 2) ex_preds2 ex_targets 2))) /\
  log_lik (qc 2) ex_preds2' ex_targets = log_lik (qc 2) ex_preds2 ex_targets.
Proof.
  apply (@log_lik_first_column_only Qc _ (qc 2) ex_preds2 ex_preds2' ex_targets
           1 2 2); try reflexivity.
  - lia.
  - intros s j Hs Hj.
    destruct s as [|s]; [|lia].
    destruct j as [|[|j]]; [reflexivity | reflexivity | lia].
Defined.

(** ** Degenerate inputs *)

Section EmptyData.

Context {F : Type} `{Scalar F}.

(** C8: for one weight sample and an empty data set (N = 0 rows of inputs
    and targets) the log-likelihood term is 0 and [logprob] returns the
    log-prior [-L2_reg * sum_w weights[0,w]^2].  The arithmetic facts used
    are [-0 = 0], [0 / noise_variance = 0] and [x + 0 = x]. *)
Theorem logprob_empty_data (ls : list nat) (L2_reg noise_variance : F)
  (f : F -> F) (weights inputs targets : ndarray F) (W D : nat) :
  sneg s0 = s0 ->
  sdiv s0 noise_variance = s0 ->
  (forall x, sadd x s0 = x) ->
  wf weights -> shape weights = [1; W] -> W = num_weights ls ->
  shape inputs = [0; D] -> hd 0 ls = D ->
  shape targets = [0; 1] ->
  2 <= length ls -> 1 <= last ls 0 ->
  exists preds,
    predictions ls f weights inputs = Ok preds /\
    log_lik noise_variance preds targets = Ok (build [1] (fun1 (fun _ => s0))) /\
    logprob ls L2_reg noise_variance f weights inputs targets
      = log_prior L2_reg weights /\
    log_prior L2_reg weights
      = Ok (build [1] (fun1 (log_prior_at L2_reg weights W))).
Proof.
  intros Hneg Hdiv Hadd Hw Hsh HW Hin Hhd Ht Hlen Hlast.
  assert (HW' : num_weights ls <= W) by lia.
  pose proof (@predictions_closed F _ f weights 1 0 ls inputs W D
                Hw Hsh HW' Hin Hlen Hhd) as Hpred.
  eexists. split; [exact Hpred |].
  assert (Hll : forall preds s, log_lik_at noise_variance preds targets 0 s = s0).
  { intros preds s. unfold log_lik_at. simpl. unfold sum_list. simpl.
    rewrite Hneg. exact Hdiv. }
  split.
  - erewrite log_lik_closed; eauto using shape_build.
    f_equal. apply build_ext. intros idx Hb. inv_bounds Hb.
    unfold fun1. apply Hll.
  - split.
    + erewrite logprob_closed; eauto using shape_build.
      rewrite (log_prior_closed L2_reg Hw Hsh). f_equal.
      apply build_ext. intros idx Hb. inv_bounds Hb.
      unfold fun1. rewrite Hll. apply Hadd.
    + apply (log_prior_closed L2_reg Hw Hsh).
Qed.

End EmptyData.

Lemma logprob_empty_data_witness :
  exists preds,
    predictions ex_layers (fun x => x) ex_weights ex_no_inputs = Ok preds /\
    log_lik (qc 2) preds ex_no_targets = Ok (build [1] (fun1 (fun _ => s0))) /\
    logprob ex_layers (qc 1) (qc 2) (fun x => x) ex_weights ex_no_inputs
      ex_no_targets = log_prior (qc 1) ex_weights /\
    log_prior (qc 1) ex_weights
      = Ok (build [1] (fun1 (log_prior_at (qc 1) ex_weights 7))).
Proof.
  apply (@logprob_empty_data Qc _ ex_layers (qc 1) (qc 2) (fun x => x)
           ex_weights ex_no_inputs ex_no_targets 7 1);
    try reflexivity.
  - apply Qc_is_canon. reflexivity.
  - intros x. apply Qcplus_0_r.
  - simpl. lia.
Defined.

Section ZeroWeights.

Context {F : Type} `{Scalar F}.

(** Which scalars count as zero and which as finite.  In exact arithmetic
    [is_zero x] is [x = 0] and every scalar is finite; in binary64
    arithmetic [is_zero] holds of the two signed zeros and [finite] of every
    number but the infinities and NaN.  The four laws hold in both. *)
Variables is_zero finite : F -> Prop.
Hypothesis zero_is_zero : is_zero s0.
Hypothesis zero_finite : forall z : F, is_zero z -> finite z.
Hypothesis mul_zero : forall x w : F, finite x -> is_zero w -> is_zero (smul x w).
Hypothesis add_zero : forall a b : F, is_zero a -> is_zero b -> is_zero (sadd a b).

Lemma fold_sadd_is_zero (l : list F) :
  Forall is_zero l -> forall a, is_zero a -> is_zero (fold_left sadd l a).
Proof.
  induction 1 as [|x l Hx Hl IH]; intros a Ha; simpl.
  - exact Ha.
  - apply IH. apply add_zero; assumption.
Qed.

Lemma layer_out_is_zero (m n off : nat) (w x : nat -> F) (o : nat) :
  (forall c, is_zero (w c)) -> (forall c, finite (x c)) ->
  is_zero (layer_out m n off w x o).
Proof.
  intros Hw Hx. unfold layer_out. apply add_zero; [| apply Hw].
  unfold sum_list. apply fold_sadd_is_zero; [| exact zero_is_zero].
  apply Forall_forall. intros y Hy. apply in_map_iff in Hy.
  destruct Hy as [c [<- _]]. apply mul_zero; [apply Hx | apply Hw].
Qed.

Lemma net_is_zero (f : F -> F) (w : nat -> F) (shp : list (nat * nat)) :
  (forall z, is_zero z -> is_zero (f z)) ->
  (forall c, is_zero (w c)) -> shp <> [] ->
  forall off x o, (forall c, finite (x c)) -> is_zero (net f shp off w x o).
Proof.
  intros Hf Hw. induction shp as [|[m n] shp IH]; intros Hne off x o Hx.
  - congruence.
  - destruct shp as [|p shp].
    + simpl. apply layer_out_is_zero; assumption.
    + change (net f ((m, n) :: p :: shp) off w x o)
        with (net f (p :: shp) (off + (m + 1) * n) w
                (fun o' => f (layer_out m n off w x o')) o).
      apply IH; [discriminate |].
      intros c. apply zero_finite, Hf. apply layer_out_is_zero; assumption.
Qed.

Lemma get_finite (a : ndarray F) (idx : list nat) :
  Forall finite (data a) -> finite (get a idx).
Proof.
  intros Hall. unfold get.
  destruct (nth_in_or_default (ravel (shape a) idx) (data a) s0) as [Hin | Hd].
  - rewrite Forall_forall in Hall. apply Hall. exact Hin.
  - rewrite Hd. apply zero_finite. exact zero_is_zero.
Qed.

(** C9, as the code has it: with the all-zero weight batch (every weight
    matrix and every bias vector zero), a nonlinearity that maps zero to
    zero and an input batch all of whose entries are finite, the forward
    pass returns an array of shape (S, N, O) all of whose entries are zero.
    An infinite or NaN entry of the inputs is excluded: its product with a
    zero weight is NaN. *)
Theorem zero_weights_give_zero_predictions (ls : list nat) (f : F -> F)
  (inputs : ndarray F) (S W N D : nat) :
  (forall z, is_zero z -> is_zero (f z)) ->
  W = num_weights ls ->
  shape inputs = [N; D] -> hd 0 ls = D ->
  2 <= length ls ->
  Forall finite (data inputs) ->
  exists preds,
    predictions ls f (zeros [S; W]) inputs = Ok preds /\
    shape preds = [S; N; last ls 0] /\ wf preds /\
    forall s n o, s < S -> n < N -> o < last ls 0 ->
      is_zero (get preds [s; n; o]).
Proof.
  intros Hf HW Hin Hhd Hlen Hfin.
  assert (HW' : num_weights ls <= W) by lia.
  eexists. split.
  - apply (@predictions_closed F _ f (zeros [S; W]) S N ls inputs W D
             (wf_build _ _) (shape_build _ _) HW' Hin Hlen Hhd).
  - split; [reflexivity |]. split; [apply wf_build |].
    intros s n o Hs Hn Ho. rewrite get_build by solve_bounds. unfold fun3.
    apply net_is_zero.
    + exact Hf.
    + intros c. rewrite get_zeros. exact zero_is_zero.
    + intros Hnil. pose proof (length_shapes ls) as Hl.
      rewrite Hnil in Hl. simpl in Hl. lia.
    + intros c. apply get_finite. exact Hfin.
Qed.

End ZeroWeights.

Lemma zero_weights_give_zero_predictions_witness :
  exists preds,
    predictions ex_layers (fun x => x) (zeros [1; 7]) ex_inputs = Ok preds /\
    shape preds = [1; 2; 1] /\ wf preds /\
    forall s n o, s < 1 -> n < 2 -> o < 1 -> get preds [s; n; o] = 0%Qc.
Proof.
  apply (@zero_weights_give_zero_predictions Qc QcScalar
           (fun z => z = 0%Qc) (fun _ => True))
    with (D := 1); try reflexivity; auto.
  - intros x w _ ->. apply Qcmult_0_r.
  - intros a b -> ->. reflexivity.
  - simpl. lia.
  - repeat constructor.
Defined.

(** C9 fails as stated in binary64 arithmetic: with all-zero weights and
    the identity as nonlinearity, the input [inf] gives the prediction
    [inf * 0 = nan], not zero. *)
Lemma zero_weights_infinite_input :
  predictions fl_layers (fun x => x) (zeros [1; 2]) fl_inf_inputs
  = Ok (mk_nd [1; 2; 1] [nan; 0%float]) /\
  predictions fl_layers (fun x => x) (zeros [1; 2]) fl_inf_inputs
  <> Ok (zeros [1; 2; 1]).
Proof.
  assert (Hval : predictions fl_layers (fun x => x) (zeros [1; 2]) fl_inf_inputs
                 = Ok (mk_nd [1; 2; 1] [nan; 0%float]))
    by (vm_compute; reflexivity).
  split; [exact Hval |].
  rewrite Hval. intros Heq.
  apply (f_equal (fun r => match r with
                           | Ok a => PrimFloat.is_nan (nth 0 (data a) 0%float)
                           | Raise _ => false
                           end)) in Heq.
  vm_compute in Heq. discriminate Heq.
Qed.

(** On finite inputs the binary64 predictions of the all-zero batch are
    zero. *)
Example ex_zero_weights_binary64 :
  predictions ex_layers (fun x => x) (zeros [1; 7]) fl_finite_inputs
  = Ok (zeros [1; 2; 1]).
Proof. vm_compute. reflexivity. Qed.

(** ** Order of the data points *)

Lemma map_nth_seq (A : Type) (p : list A) (d : A) :
  map (fun k => nth k p d) (seq 0 (length p)) = p.
Proof.
  apply nth_ext with (d := d) (d' := d).
  - rewrite length_map, length_seq. reflexivity.
  - intros k Hk. rewrite length_map, length_seq in Hk.
    rewrite (nth_indep _ d (nth 0 p d)) by (rewrite length_map, length_seq; exact Hk).
    rewrite (map_nth (fun k => nth k p d)), seq_nth by exact Hk. reflexivity.
Qed.

Lemma perm_seq_bound (p : list nat) (N k : nat) :
  Permutation p (seq 0 N) -> k < N -> nth k p 0 < N.
Proof.
  intros Hp Hk.
  assert (Hin : In (nth k p 0) (seq 0 N)).
  { apply (Permutation_in _ Hp). apply nth_In.
    rewrite (Permutation_length Hp), length_seq. exact Hk. }
  apply in_seq in Hin. lia.
Qed.

Section RowOrder.

Context {F : Type} `{Scalar F}.

Hypothesis add_comm : forall x y : F, sadd x y = sadd y x.
Hypothesis add_assoc : forall x y z : F, sadd x (sadd y z) = sadd (sadd x y) z.

Lemma fold_left_sadd_perm (l l' : list F) :
  Permutation l l' -> forall a, fold_left sadd l a = fold_left sadd l' a.
Proof.
  induction 1 as [|x l l' Hp IH|x y l|l l' l'' Hp1 IH1 Hp2 IH2]; intros a; simpl.
  - reflexivity.
  - apply IH.
  - f_equal. rewrite <- !add_assoc. f_equal. apply add_comm.
  - rewrite IH1. apply IH2.
Qed.

Lemma sum_list_perm (l l' : list F) :
  Permutation l l' -> sum_list l = sum_list l'.
Proof. intros Hp. apply fold_left_sadd_perm. exact Hp. Qed.

End RowOrder.

Section RowOrderNet.

Context {F : Type} `{Scalar F}.

Lemma layer_out_ext (m n off : nat) (w x x' : nat -> F) (o : nat) :
  (forall c, c < m -> x c = x' c) ->
  layer_out m n off w x o = layer_out m n off w x' o.
Proof.
  intros Hx. unfold layer_out. f_equal. f_equal.
  apply map_ext_in. intros c Hc. apply in_seq in Hc.
  rewrite Hx by lia. reflexivity.
Qed.

Lemma net_ext (f : F -> F) (w : nat -> F) (shp : list (nat * nat)) :
  forall m off x x' o,
    shp <> [] -> chain m shp ->
    (forall c, c < m -> x c = x' c) ->
    net f shp off w x o = net f shp off w x' o.
Proof.
  induction shp as [|[m' n] shp IH]; intros m off x x' o Hne Hch Hx.
  - congruence.
  - destruct Hch as [-> Hch]. destruct shp as [|q shp].
    + simpl. apply layer_out_ext. exact Hx.
    + change (net f ((m, n) :: q :: shp) off w ?y o)
        with (net f (q :: shp) (off + (m + 1) * n) w
                (fun o' => f (layer_out m n off w y o')) o).
      apply (IH n); [discriminate | exact Hch |].
      intros c Hc. f_equal. apply layer_out_ext. exact Hx.
Qed.

Lemma shape_take_rows (p : list nat) (a : ndarray F) (N D : nat) :
  shape a = [N; D] -> shape (take_rows p a) = [length p; D].
Proof. intros Hsh. unfold take_rows. rewrite Hsh. reflexivity. Qed.

Lemma get_take_rows (p : list nat) (a : ndarray F) (N D k c : nat) :
  shape a = [N; D] -> k < length p -> c < D ->
  get (take_rows p a) [k; c] = get a [nth k p 0; c].
Proof.
  intros Hsh Hk Hc. unfold take_rows. rewrite Hsh.
  rewrite get_build by solve_bounds. reflexivity.
Qed.

Hypothesis add_comm : forall x y : F, sadd x y = sadd y x.
Hypothesis add_assoc : forall x y z : F, sadd x (sadd y z) = sadd (sadd x y) z.

(** C6, as the code has it: when the addition of scalars is commutative
    and associative (exact arithmetic), applying one permutation [p] of the
    N row numbers to the rows of the input batch and of the target batch
    leaves the result of [logprob] unchanged: the likelihood sums the same
    terms in another order.  In binary64 arithmetic, where addition is not
    associative, the two results can differ by rounding. *)
Theorem logprob_row_permutation (ls : list nat) (L2_reg noise_variance : F)
  (f : F -> F) (weights inputs targets : ndarray F) (S W N D : nat)
  (p : list nat) :
  wf weights -> shape weights = [S; W] -> W = num_weights ls ->
  shape inputs = [N; D] -> hd 0 ls = D ->
  shape targets = [N; 1] ->
  2 <= length ls -> 1 <= last ls 0 ->
  Permutation p (seq 0 N) ->
  logprob ls L2_reg noise_variance f weights (take_rows p inputs)
    (take_rows p targets)
  = logprob ls L2_reg noise_variance f weights inputs targets /\
  exists r, logprob ls L2_reg noise_variance f weights inputs targets = Ok r.
Proof.
  intros Hw Hsh HW Hin Hhd Ht Hlen Hlast Hp.
  assert (HW' : num_weights ls <= W) by lia.
  assert (HpN : length p = N)
    by (rewrite (Permutation_length Hp); apply length_seq).
  pose proof (@shape_take_rows p inputs N D Hin) as Hin'. rewrite HpN in Hin'.
  pose proof (@shape_take_rows p targets N 1 Ht) as Ht'. rewrite HpN in Ht'.
  pose proof (@predictions_closed F _ f weights S N ls inputs W D
                Hw Hsh HW' Hin Hlen Hhd) as Hpred.
  pose proof (@predictions_closed F _ f weights S N ls (take_rows p inputs) W D
                Hw Hsh HW' Hin' Hlen Hhd) as Hpred'.
  rewrite (@logprob_closed F _ ls L2_reg noise_variance f weights inputs targets
             _ S W N (last ls 0) Hw Hsh Hpred (shape_build _ _) Ht Hlast).
  rewrite (@logprob_closed F _ ls L2_reg noise_variance f weights
             (take_rows p inputs) (take_rows p targets)
             _ S W N (last ls 0) Hw Hsh Hpred' (shape_build _ _) Ht' Hlast).
  split; [| eexists; reflexivity].
  f_equal. apply build_ext. intros idx Hb. inv_bounds Hb. rename i into s.
  unfold fun1. f_equal. unfold log_lik_at. f_equal. f_equal.
  set (G := fun j =>
              spow2 (ssub (get (build [S; N; last ls 0]
                                  (fun3 (fun s j o =>
                                     net f (shapes ls) 0
                                       (fun c => get weights [s; c])
                                       (fun c => get inputs [j; c]) o)))
                               [s; j; 0])
                          (get targets [j; 0]))).
  transitivity (sum_list (map G p)).
  - f_equal. rewrite <- (map_nth_seq p 0) at 1. rewrite map_map, HpN.
    apply map_ext_in. intros k Hk. apply in_seq in Hk.
    assert (Hpk : nth k p 0 < N) by (apply perm_seq_bound; [exact Hp | lia]).
    unfold G. rewrite !get_build by solve_bounds. unfold fun3.
    rewrite (@get_take_rows p targets N 1 k 0 Ht) by lia. f_equal. f_equal.
    destruct ls as [|a [|b ls]]; try (simpl in Hlen; lia).
    simpl in Hhd. subst a.
    apply net_ext with (m := D).
    + rewrite shapes_cons2. discriminate.
    + apply chain_shapes.
    + intros c Hc. apply (@get_take_rows p inputs N D k c Hin); lia.
  - apply sum_list_perm; [exact add_comm | exact add_assoc |].
    apply Permutation_map. exact Hp.
Qed.

End RowOrderNet.

Lemma logprob_row_permutation_witness :
  logprob ex_layers (qc 1) (qc 2) (fun x => x) ex_weights
    (take_rows ex_perm ex_inputs) (take_rows ex_perm ex_targets)
  = logprob ex_layers (qc 1) (qc 2) (fun x => x) ex_weights ex_inputs ex_targets /\
  exists r,
    logprob ex_layers (qc 1) (qc 2) (fun x => x) ex_weights ex_inputs ex_targets
    = Ok r.
Proof.
  apply (@logprob_row_permutation Qc QcScalar Qcplus_comm Qcplus_assoc ex_layers
           (qc 1) (qc 2) (fun x => x) ex_weights ex_inputs ex_targets
           1 7 2 1 ex_perm); try reflexivity.
  - simpl. lia.
  - apply perm_swap.
Defined.

(** C6 fails as stated in binary64 arithmetic: for the squared errors
    [1e16, 1, 1] the sum accumulated in this order is [1e16], since
    [1e16 + 1] rounds to [1e16]; in the order [1, 1, 1e16] it is
    [1e16 + 2]. *)
Lemma logprob_row_permutation_rounds :
  Permutation fl_perm (seq 0 3) /\
  logprob fl_layers 0%float 1%float (fun x => x) fl_weights fl_inputs fl_targets
  = Ok (mk_nd [1] [(-10000000000000000)%float]) /\
  logprob fl_layers 0%float 1%float (fun x => x) fl_weights
    (take_rows fl_perm fl_inputs) (take_rows fl_perm fl_targets)
  = Ok (mk_nd [1] [(-10000000000000002)%float]) /\
  logprob fl_layers 0%float 1%float (fun x => x) fl_weights
    (take_rows fl_perm fl_inputs) (take_rows fl_perm fl_targets)
  <> logprob fl_layers 0%float 1%float (fun x => x) fl_weights fl_inputs
       fl_targets.
Proof.
  assert (H1 : logprob fl_layers 0%float 1%float (fun x => x) fl_weights
                 fl_inputs fl_targets
               = Ok (mk_nd [1] [(-10000000000000000)%float]))
    by (vm_compute; reflexivity).
  assert (H2 : logprob fl_layers 0%float 1%float (fun x => x) fl_weights
                 (take_rows fl_perm fl_inputs) (take_rows fl_perm fl_targets)
               = Ok (mk_nd [1] [(-10000000000000002)%float]))
    by (vm_compute; reflexivity).
  split.
  { unfold fl_perm. simpl seq.
    apply perm_trans with (l' := [1; 0; 2]).
    - apply perm_skip. apply perm_swap.
    - apply perm_swap. }
  split; [exact H1 |]. split; [exact H2 |].
  rewrite H1, H2. intros Heq.
  apply (f_equal (fun r => match r with
                           | Ok a => PrimFloat.eqb (nth 0 (data a) 0%float)
                                       (-10000000000000000)%float
                           | Raise _ => false
                           end)) in Heq.
  vm_compute in Heq. discriminate Heq.
Qed.

(** ** Monotonicity of the L2 penalty *)

(** The canonical rationals form a strictly ordered ring. *)
Lemma Qc_sor : SOR 0%Qc 1%Qc Qcplus Qcmult Qcminus Qcopp eq Qcle Qclt.
Proof.
  constructor.
  - constructor; [intros x; reflexivity | intros x y; apply eq_sym
                 | intros x y z; apply eq_trans].
  - intros x1 x2 -> y1 y2 ->. reflexivity.
  - intros x1 x2 -> y1 y2 ->. reflexivity.
  - intros x1 x2 ->. reflexivity.
  - intros x1 x2 -> y1 y2 ->. reflexivity.
  - intros x1 x2 -> y1 y2 ->. reflexivity.
  - exact Qcrt.
  - exact Qcle_refl.
  - exact Qcle_antisym.
  - exact Qcle_trans.
  - intros n m. split.
    + intros Hlt. split; [apply Qclt_le_weak; exact Hlt | apply Qclt_not_eq; exact Hlt].
    + intros [Hle Hne]. destruct (Qcle_lt_or_eq _ _ Hle) as [Hlt|Heq];
        [exact Hlt | contradiction].
  - intros n m. destruct (Qc_dec n m) as [[Hlt|Hgt]|Heq]; auto.
  - intros n m p Hle. apply Qcplus_le_compat; [apply Qcle_refl | exact Hle].
  - intros n m Hn Hm. rewrite <- (Qcmult_0_l m).
    apply Qcmult_lt_compat_r; assumption.
  - intros Heq. discriminate Heq.
Qed.

Section PriorMonotone.

Context {F : Type} `{Scalar F}.

Variable sone : F.
Variables sle slt : F -> F -> Prop.
Hypothesis sor : SOR s0 sone sadd smul ssub sneg eq sle slt.

Add Ring scalar_ring : (SORrt sor).

Lemma spow2_nonneg (x : F) : sle s0 (spow2 x).
Proof. apply (Rtimes_square_nonneg sor). Qed.

Lemma spow2_pos (x : F) : x <> s0 -> slt s0 (spow2 x).
Proof.
  intros Hx. apply (Rlt_le_neq sor). split.
  - apply spow2_nonneg.
  - intros Heq. apply (Rtimes_neq_0 sor x x (conj Hx Hx)). symmetry. exact Heq.
Qed.

Lemma fold_sadd_nonneg (l : list F) :
  Forall (sle s0) l -> forall a, sle s0 a -> sle s0 (fold_left sadd l a).
Proof.
  induction 1 as [|x l Hx Hl IH]; intros a Ha; simpl.
  - exact Ha.
  - apply IH. apply (Rplus_nonneg_nonneg sor); assumption.
Qed.

Lemma fold_sadd_pos_acc (l : list F) :
  Forall (sle s0) l -> forall a, slt s0 a -> slt s0 (fold_left sadd l a).
Proof.
  induction 1 as [|x l Hx Hl IH]; intros a Ha; simpl.
  - exact Ha.
  - apply IH. apply (Rplus_pos_nonneg sor); assumption.
Qed.

Lemma fold_sadd_pos (l : list F) :
  Forall (sle s0) l -> Exists (slt s0) l ->
  forall a, sle s0 a -> slt s0 (fold_left sadd l a).
Proof.
  intros Hall Hex. induction Hex as [x l Hx|x l Hex IH]; intros a Ha; simpl.
  - inversion Hall; subst. apply fold_sadd_pos_acc; [assumption |].
    apply (Rplus_nonneg_pos sor); assumption.
  - inversion Hall; subst. apply IH; [assumption |].
    apply (Rplus_nonneg_nonneg sor); assumption.
Qed.

Lemma sum_squares_pos (weights : ndarray F) (W s : nat) :
  (exists c, c < W /\ get weights [s; c] <> s0) ->
  slt s0 (sum_list (map (fun c => spow2 (get weights [s; c])) (seq 0 W))).
Proof.
  intros [c [Hc Hne]]. unfold sum_list. apply fold_sadd_pos.
  - apply Forall_forall. intros y Hy. apply in_map_iff in Hy.
    destruct Hy as [c' [<- _]]. apply spow2_nonneg.
  - apply Exists_exists. exists (spow2 (get weights [s; c])). split.
    + apply in_map_iff. exists c. split; [reflexivity | apply in_seq; lia].
    + apply spow2_pos. exact Hne.
  - apply (Rle_refl sor).
Qed.

(** C7, as the code has it: when the scalars form a strictly ordered ring
    (exact arithmetic), for a weight row with at least one nonzero entry the
    log-prior [-L2_reg * sum_w weights[s,w]^2] strictly decreases as
    [L2_reg] grows: if [L1 < L2] the log-prior computed with [L2] is
    strictly below the one computed with [L1].  In binary64 arithmetic the
    square of a small weight can underflow to zero, and the two log-priors
    are then equal. *)
Theorem log_prior_strictly_decreasing (weights : ndarray F) (S W s : nat)
  (L1 L2 : F) :
  wf weights -> shape weights = [S; W] -> s < S ->
  (exists c, c < W /\ get weights [s; c] <> s0) ->
  slt L1 L2 ->
  exists a1 a2,
    log_prior L1 weights = Ok a1 /\
    log_prior L2 weights = Ok a2 /\
    get a1 [s] = log_prior_at L1 weights W s /\
    get a2 [s] = log_prior_at L2 weights W s /\
    slt (get a2 [s]) (get a1 [s]).
Proof.
  intros Hw Hsh Hs Hnz HL.
  exists (build [S] (fun1 (log_prior_at L1 weights W))).
  exists (build [S] (fun1 (log_prior_at L2 weights W))).
  split; [apply (log_prior_closed L1 Hw Hsh) |].
  split; [apply (log_prior_closed L2 Hw Hsh) |].
  rewrite !get_build by solve_bounds. unfold fun1.
  split; [reflexivity |]. split; [reflexivity |].
  unfold log_prior_at.
  pose proof (@sum_squares_pos weights W s Hnz) as HP.
  set (P := sum_list (map (fun c => spow2 (get weights [s; c])) (seq 0 W))) in *.
  apply (proj2 (Rlt_lt_minus sor _ _)).
  replace (ssub (smul (sneg L1) P) (smul (sneg L2) P))
    with (smul (ssub L2 L1) P) by ring.
  apply (Rtimes_pos_pos sor); [| exact HP].
  exact (proj1 (Rlt_lt_minus sor L1 L2) HL).
Qed.

End PriorMonotone.

Lemma log_prior_strictly_decreasing_witness :
  exists a1 a2,
    log_prior (qc 1) ex_weights = Ok a1 /\
    log_prior (qc 2) ex_weights = Ok a2 /\
    get a1 [0] = log_prior_at (qc 1) ex_weights 7 0 /\
    get a2 [0] = log_prior_at (qc 2) ex_weights 7 0 /\
    Qclt (get a2 [0]) (get a1 [0]).
Proof.
  apply (@log_prior_strictly_decreasing Qc QcScalar 1%Qc Qcle Qclt Qc_sor
           ex_weights 1 7 0 (qc 1) (qc 2)); try reflexivity.
  - lia.
  - exists 0. split; [lia | discriminate].
Defined.

(** C7 fails as stated in binary64 arithmetic: the square of the nonzero
    weight [2^-600] underflows to zero, so the log-prior is [-0] for
    [L2_reg = 1] and for [L2_reg = 2], and does not decrease. *)
Lemma log_prior_underflow :
  PrimFloat.eqb (get fl_tiny_weights [0; 0]) 0%float = false /\
  PrimFloat.ltb 1%float 2%float = true /\
  log_prior 1%float fl_tiny_weights = Ok (mk_nd [1] [(-0)%float]) /\
  log_prior 2%float fl_tiny_weights = Ok (mk_nd [1] [(-0)%float]) /\
  PrimFloat.ltb (-0)%float (-0)%float = false.
Proof.
  repeat split; vm_compute; reflexivity.
Qed.

(* ================================================================== *)
(** * Part IV: further properties of the code *)
(* ================================================================== *)

(** ** Layout of the flat weight rows *)

Lemma columns_needed_cons (m n : nat) (shp : list (nat * nat)) :
  columns_needed ((m, n) :: shp) = (m + 1) * n + columns_needed shp.
Proof. unfold columns_needed. simpl map. rewrite py_sum_cons. reflexivity. Qed.

Lemma num_weights_columns (ls : list nat) :
  num_weights ls = columns_needed (shapes ls).
Proof. reflexivity. Qed.

Section Layout.

Context {F : Type} `{Scalar F}.

(** X1: on a weight batch with at least [num_weights] columns the generator
    yields, for each layer pair (m, n) in schedule order, the matrix read
    row-major from the m*n columns at the pair's offset and the bias read
    from the n columns after them, the offset being the number of columns of
    the pairs before. *)
Theorem unpack_layers_layout (ls : list nat) (weights : ndarray F) (S W : nat) :
  wf weights -> shape weights = [S; W] -> num_weights ls <= W ->
  gen_items (unpack_layers ls weights)
  = Ok (pairs_at weights S (shapes ls) 0).
Proof.
  intros Hw Hsh HW. rewrite (unpack_layers_pairs ls Hw Hsh HW).
  apply gen_items_of_list.
Qed.

(** X2: on well-shaped arguments [predictions] returns an array of shape
    (S, N, O) whose element (s, n, o) is output [o] of the network run on
    input row [n] with weight row [s]: each layer multiplies by its matrix
    and adds its bias, and the nonlinearity sits between the layers. *)
Theorem predictions_elementwise (ls : list nat) (f : F -> F)
  (weights inputs : ndarray F) (S W N D : nat) :
  wf weights -> shape weights = [S; W] -> num_weights ls <= W ->
  shape inputs = [N; D] -> hd 0 ls = D -> 2 <= length ls ->
  exists preds,
    predictions ls f weights inputs = Ok preds /\
    shape preds = [S; N; last ls 0] /\
    forall s n o, s < S -> n < N -> o < last ls 0 ->
      get preds [s; n; o]
      = net f (shapes ls) 0 (fun c => get weights [s; c])
            (fun c => get inputs [n; c]) o.
Proof.
  intros Hw Hsh HW Hin Hhd Hlen.
  eexists. split.
  - apply (@predictions_closed F _ f weights S N ls inputs W D); assumption.
  - split; [reflexivity |].
    intros s n o Hs Hn Ho. rewrite get_build by solve_bounds. reflexivity.
Qed.

End Layout.

Lemma unpack_layers_layout_witness :
  gen_items (unpack_layers ex_layers ex_weights_wide)
  = Ok (pairs_at ex_weights_wide 1 (shapes ex_layers) 0).
Proof.
  apply (@unpack_layers_layout Qc _ ex_layers ex_weights_wide 1 8).
  - reflexivity.
  - reflexivity.
  - unfold num_weights, py_sum. simpl. lia.
Defined.

Lemma predictions_elementwise_witness :
  exists preds,
    predictions ex_layers (fun x => x) ex_weights ex_inputs = Ok preds /\
    shape preds = [1; 2; 1] /\
    forall s n o, s < 1 -> n < 2 -> o < 1 ->
      get preds [s; n; o]
      = net (fun x => x) (shapes ex_layers) 0 (fun c => get ex_weights [s; c])
            (fun c => get ex_inputs [n; c]) o.
Proof.
  apply (@predictions_elementwise Qc _ ex_layers (fun x => x)
           ex_weights ex_inputs 1 7 2 1); try reflexivity; simpl; lia.
Defined.

(** ** Weight batches of the wrong width *)

Section WeightWidth.

Context {F : Type} `{Scalar F}.

Lemma pairs_at_ext (w w' : ndarray F) (S : nat) (shp : list (nat * nat)) :
  forall off,
    (forall s c, s < S -> off <= c < off + columns_needed shp ->
       get w [s; c] = get w' [s; c]) ->
    pairs_at w S shp off = pairs_at w' S shp off.
Proof.
  induction shp as [|[m n] shp IH]; intros off Hag.
  - reflexivity.
  - rewrite columns_needed_cons in Hag. simpl. f_equal.
    + f_equal.
      * unfold weight_matrix. apply build_ext. intros idx Hb. inv_bounds Hb.
        unfold fun3. apply Hag; [assumption | nia].
      * unfold bias_vector. apply build_ext. intros idx Hb. inv_bounds Hb.
        unfold fun3. apply Hag; [assumption | nia].
    + apply IH. intros s c Hs Hc. apply Hag; [assumption | lia].
Qed.

(** X3: columns beyond the first [num_weights] are never read: two weight
    batches with at least [num_weights] columns that agree on the first
    [num_weights] columns unpack to the same pairs and give the same
    predictions, whatever the inputs are (an error included). *)
Theorem predictions_ignore_extra_columns (ls : list nat) (f : F -> F)
  (w w' : ndarray F) (S W W' : nat) :
  wf w -> shape w = [S; W] -> num_weights ls <= W ->
  wf w' -> shape w' = [S; W'] -> num_weights ls <= W' ->
  (forall s c, s < S -> c < num_weights ls -> get w [s; c] = get w' [s; c]) ->
  unpack_layers ls w = unpack_layers ls w' /\
  forall inputs, predictions ls f w inputs = predictions ls f w' inputs.
Proof.
  intros Hw Hsh HW Hw' Hsh' HW' Hag.
  assert (Heq : unpack_layers ls w = unpack_layers ls w').
  { rewrite (unpack_layers_pairs ls Hw Hsh HW).
    rewrite (unpack_layers_pairs ls Hw' Hsh' HW'). f_equal.
    apply pairs_at_ext. intros s c Hs Hc. apply Hag; [assumption |].
    rewrite num_weights_columns. lia. }
  split; [exact Heq |].
  intros inputs. unfold predictions. rewrite Heq. reflexivity.
Qed.

Lemma slice_colblock_clip (w : ndarray F) (S off R lo hi : nat) :
  slice_axis1 lo (Some hi) (colblock w S off R)
  = Ok (colblock w S (off + Nat.min lo R) (Nat.min hi R - Nat.min lo R)).
Proof.
  unfold slice_axis1.
  change (shape (colblock w S off R)) with [S; R]. cbv beta iota zeta.
  f_equal. apply build_ext. intros idx Hb. inv_bounds Hb.
  rewrite get_colblock by lia. simpl.
  replace (off + (Nat.min lo R + i0)) with (off + Nat.min lo R + i0) by lia.
  reflexivity.
Qed.

Lemma reshape_mismatch (a : ndarray F) (sh : list nat) :
  numel sh <> numel (shape a) -> reshape a sh = Raise ValueError.
Proof.
  intros Hne. unfold reshape.
  destruct (Nat.eqb_spec (numel sh) (numel (shape a))); [contradiction | reflexivity].
Qed.

(** With too few columns left, the generator raises [ValueError] after the
    pairs it could still build. *)
Lemma unpack_loop_narrow (w : ndarray F) (S : nat) (shp : list (nat * nat)) :
  1 <= S ->
  forall off R,
    R < columns_needed shp ->
    exists items,
      unpack_loop S shp (colblock w S off R) = gen_raising items ValueError.
Proof.
  intros HS. induction shp as [|[m n] shp IH]; intros off R HR.
  - unfold columns_needed, py_sum in HR. simpl in HR. lia.
  - rewrite columns_needed_cons in HR. rewrite unpack_loop_cons.
    destruct (Nat.lt_ge_cases R (m * n)) as [Hsmall|Hmn].
    { exists []. rewrite slice_colblock_clip. unfold bind at 1.
      rewrite reshape_mismatch; [reflexivity |].
      change (shape (colblock w S (off + Nat.min 0 R)
                       (Nat.min (m * n) R - Nat.min 0 R)))
        with [S; Nat.min (m * n) R - Nat.min 0 R].
      simpl. nia. }
    rewrite (@slice_colblock F _ w S off R 0 (m * n) (m * n) off) by lia.
    unfold bind at 1. rewrite reshape_weight_matrix.
    destruct (Nat.lt_ge_cases R (m * n + n)) as [Hsmall|Hb].
    { exists []. rewrite slice_colblock_clip. unfold bind at 1.
      rewrite reshape_mismatch; [reflexivity |].
      change (shape (colblock w S (off + Nat.min (m * n) R)
                       (Nat.min (m * n + n) R - Nat.min (m * n) R)))
        with [S; Nat.min (m * n + n) R - Nat.min (m * n) R].
      simpl. nia. }
    rewrite (@slice_colblock F _ w S off R (m * n) (m * n + n) n (off + m * n))
      by lia.
    unfold bind at 1. rewrite reshape_bias_vector.
    rewrite (@slice_colblock_tail F _ w S off R ((m + 1) * n)
               (R - (m + 1) * n) (off + (m + 1) * n)) by lia.
    destruct (IH (off + (m + 1) * n) (R - (m + 1) * n)) as [items Hitems];
      [lia |].
    exists ((weight_matrix w S m n off, bias_vector w S m n off) :: items).
    rewrite Hitems. reflexivity.
Qed.

Lemma einsum_raises (x W : ndarray F) (e : pyerr) :
  einsum_mnd_mdo_mno x W = Raise e -> e = ValueError.
Proof.
  unfold einsum_mnd_mdo_mno.
  repeat match goal with
         | |- context [match ?t with _ => _ end] => destruct t
         end; intros Heq; congruence.
Qed.

Lemma broadcast2_raises (op : F -> F -> F) (a b : ndarray F) (e : pyerr) :
  broadcast2 op a b = Raise e -> e = ValueError.
Proof.
  unfold broadcast2.
  destruct (broadcast_shapes (shape a) (shape b)); intros Heq; congruence.
Qed.

Lemma preactivation_raises (x W b : ndarray F) (e : pyerr) :
  preactivation x W b = Raise e -> e = ValueError.
Proof.
  unfold preactivation.
  destruct (einsum_mnd_mdo_mno x W) as [z|e'] eqn:Hz; simpl.
  - apply broadcast2_raises.
  - intros Heq. injection Heq as <-. apply (einsum_raises _ _ Hz).
Qed.

Lemma predictions_loop_raising (f : F -> F)
  (items : list (ndarray F * ndarray F)) :
  forall x outs,
    predictions_loop f (gen_raising items ValueError) x outs = Raise ValueError.
Proof.
  induction items as [|[W b] items IH]; intros x outs; simpl.
  - reflexivity.
  - destruct (preactivation x W b) as [o|e] eqn:Hp; simpl.
    + apply IH.
    + f_equal. apply (preactivation_raises _ _ _ Hp).
Qed.

(** X4: a weight batch with at least one sample and fewer than
    [num_weights] columns makes [predictions] raise [ValueError], whatever
    the inputs are: the slice that runs out of columns cannot be reshaped. *)
Theorem predictions_narrow_weights (ls : list nat) (f : F -> F)
  (weights inputs : ndarray F) (S W : nat) :
  wf weights -> shape weights = [S; W] ->
  1 <= S -> W < num_weights ls ->
  predictions ls f weights inputs = Raise ValueError.
Proof.
  intros Hw Hsh HS HW. unfold predictions, unpack_layers, len. rewrite Hsh.
  rewrite <- (colblock_all Hw Hsh) at 1.
  destruct (@unpack_loop_narrow weights S (shapes ls) HS 0 W HW) as [items ->].
  apply predictions_loop_raising.
Qed.

End WeightWidth.

Lemma predictions_ignore_extra_columns_witness :
  unpack_layers ex_layers ex_weights_wide = unpack_layers ex_layers ex_weights /\
  forall inputs,
    predictions ex_layers (fun x => x) ex_weights_wide inputs
    = predictions ex_layers (fun x => x) ex_weights inputs.
Proof.
  apply (@predictions_ignore_extra_columns Qc _ ex_layers (fun x => x)
           ex_weights_wide ex_weights 1 8 7); try reflexivity.
  - unfold num_weights, py_sum. simpl. lia.
  - intros s c Hs Hc.
    destruct s as [|s]; [|lia].
    do 7 (destruct c as [|c]; [reflexivity |]).
    unfold num_weights, py_sum in Hc. simpl in Hc. lia.
Defined.

Lemma predictions_narrow_weights_witness :
  predictions ex_layers (fun x => x) ex_weights_narrow ex_inputs
  = Raise ValueError.
Proof.
  apply (@predictions_narrow_weights Qc _ ex_layers (fun x => x)
           ex_weights_narrow ex_inputs 1 6); try reflexivity.
  unfold num_weights, py_sum. simpl. lia.
Defined.

(** ** Arguments of the wrong shape *)

Lemma shapes_short (ls : list nat) : length ls <= 1 -> shapes ls = [].
Proof.
  destruct ls as [|a [|b ls]]; simpl; intros Hlen;
    [reflexivity | reflexivity | lia].
Qed.

Lemma bdim_none (a b : nat) : a <> b -> a <> 1 -> b <> 1 -> bdim a b = None.
Proof.
  intros Hab Ha Hb. unfold bdim.
  destruct (Nat.eqb_spec a b); [contradiction |].
  destruct (Nat.eqb_spec a 1); [contradiction |].
  destruct (Nat.eqb_spec b 1); [contradiction | reflexivity].
Qed.

Section WrongShapes.

Context {F : Type} `{Scalar F}.

(** X5: with a layer schedule of fewer than two widths there is no layer
    pair, the loop of [predictions] never runs and [outputs] stays unbound:
    the call raises [UnboundLocalError] for every weight array with at least
    one axis and every input array. *)
Theorem predictions_no_layer_pair (ls : list nat) (f : F -> F)
  (weights inputs : ndarray F) :
  length ls <= 1 -> shape weights <> [] ->
  predictions ls f weights inputs = Raise UnboundLocalError.
Proof.
  intros Hlen Hsh. unfold predictions, unpack_layers, len.
  rewrite (shapes_short ls Hlen).
  destruct (shape weights) as [|d sh]; [contradiction | reflexivity].
Qed.

Lemma first_pair (w : ndarray F) (S : nat) (ls : list nat) :
  2 <= length ls ->
  exists n items,
    pairs_at w S (shapes ls) 0
    = (weight_matrix w S (hd 0 ls) n 0, bias_vector w S (hd 0 ls) n 0) :: items.
Proof.
  intros Hlen. destruct ls as [|a [|b ls]]; try (simpl in Hlen; lia).
  rewrite shapes_cons2. simpl. eauto.
Qed.

(** X6: a 1-D array of inputs is rejected with [ValueError] by the first
    matrix product, while [np.expand_dims(plot_inputs, 1)], as the plotting
    callback applies it, turns it into a batch that a network with first
    layer width 1 accepts, with outputs of shape (S, N, O). *)
Theorem predictions_inputs_rank (ls : list nat) (f : F -> F)
  (weights plot_inputs : ndarray F) (S W N : nat) :
  wf weights -> shape weights = [S; W] -> num_weights ls <= W ->
  2 <= length ls -> hd 0 ls = 1 ->
  shape plot_inputs = [N] ->
  predictions ls f weights plot_inputs = Raise ValueError /\
  exists x outputs,
    expand_dims1 plot_inputs = Ok x /\
    predictions ls f weights x = Ok outputs /\
    shape outputs = [S; N; last ls 0].
Proof.
  intros Hw Hsh HW Hlen Hhd Hin. split.
  - unfold predictions. rewrite (unpack_layers_pairs ls Hw Hsh HW).
    destruct (@first_pair weights S ls Hlen) as [n [items ->]].
    simpl. unfold preactivation, einsum_mnd_mdo_mno, expand_dims0.
    simpl shape. rewrite Hin. reflexivity.
  - unfold expand_dims1. rewrite Hin. eexists. eexists.
    split; [reflexivity |].
    split.
    + apply (@predictions_closed F _ f weights S N ls _ W 1); auto.
    + reflexivity.
Qed.

(** X7: an input batch whose number of features differs from the first
    layer width (neither of the two being 1) is rejected with
    [ValueError]. *)
Theorem predictions_feature_mismatch (ls : list nat) (f : F -> F)
  (weights inputs : ndarray F) (S W N D : nat) :
  wf weights -> shape weights = [S; W] -> num_weights ls <= W ->
  2 <= length ls ->
  shape inputs = [N; D] ->
  D <> hd 0 ls -> D <> 1 -> hd 0 ls <> 1 ->
  predictions ls f weights inputs = Raise ValueError.
Proof.
  intros Hw Hsh HW Hlen Hin Hne HD Hm.
  unfold predictions. rewrite (unpack_layers_pairs ls Hw Hsh HW).
  destruct (@first_pair weights S ls Hlen) as [n [items ->]].
  simpl. unfold preactivation, einsum_mnd_mdo_mno, expand_dims0.
  simpl shape. rewrite Hin.
  change (shape (weight_matrix weights S (hd 0 ls) n 0)) with [S; hd 0 ls; n].
  cbv beta iota. rewrite bdim_1_l, (bdim_none Hne HD Hm). reflexivity.
Qed.

End WrongShapes.

Lemma predictions_no_layer_pair_witness :
  predictions [1] (fun x => x) ex_weights ex_inputs = Raise UnboundLocalError.
Proof.
  apply (@predictions_no_layer_pair Qc _ [1] (fun x => x) ex_weights ex_inputs).
  - simpl. lia.
  - discriminate.
Defined.

Lemma predictions_inputs_rank_witness :
  predictions ex_layers (fun x => x) ex_weights ex_inputs_1d = Raise ValueError /\
  exists x outputs,
    expand_dims1 ex_inputs_1d = Ok x /\
    predictions ex_layers (fun x => x) ex_weights x = Ok outputs /\
    shape outputs = [1; 2; 1].
Proof.
  apply (@predictions_inputs_rank Qc _ ex_layers (fun x => x)
           ex_weights ex_inputs_1d 1 7 2); try reflexivity; simpl; lia.
Defined.

Lemma predictions_feature_mismatch_witness :
  predictions ex_linear_layers (fun x => x) ex_linear_weights ex_inputs_3_features
  = Raise ValueError.
Proof.
  apply (@predictions_feature_mismatch Qc _ ex_linear_layers (fun x => x)
           ex_linear_weights ex_inputs_3_features 1 3 2 3);
    try reflexivity; simpl; lia.
Defined.

(** ** Targets of the wrong shape *)

Lemma broadcast_shapes_targets_mismatch (S N O N' : nat) :
  N <> N' -> N <> 1 -> N' <> 1 ->
  broadcast_shapes [S; N; O] [N'; 1] = None.
Proof.
  intros Hne HN HN'. unfold broadcast_shapes. simpl.
  rewrite bdim_1_r, (bdim_none Hne HN HN'). reflexivity.
Qed.

Lemma broadcast_shapes_targets_1d (S N : nat) :
  broadcast_shapes [S; N; 1] [N] = Some [S; N; N].
Proof.
  unfold broadcast_shapes. simpl. rewrite bdim_1_l. reflexivity.
Qed.

Section WrongTargets.

Context {F : Type} `{Scalar F}.

(** X8: a target batch whose number of rows differs from the number of
    data points (neither of the two being 1) makes [logprob] raise
    [ValueError]: the subtraction [preds - targets] cannot broadcast. *)
Theorem logprob_target_rows_mismatch (ls : list nat) (L2_reg noise_variance : F)
  (f : F -> F) (weights inputs targets : ndarray F) (S W N D N' : nat) :
  wf weights -> shape weights = [S; W] -> num_weights ls <= W ->
  shape inputs = [N; D] -> hd 0 ls = D -> 2 <= length ls ->
  shape targets = [N'; 1] ->
  N <> N' -> N <> 1 -> N' <> 1 ->
  logprob ls L2_reg noise_variance f weights inputs targets = Raise ValueError.
Proof.
  intros Hw Hsh HW Hin Hhd Hlen Ht Hne HN HN'.
  unfold logprob. rewrite (log_prior_closed L2_reg Hw Hsh). unfold bind at 1.
  rewrite (@predictions_closed F _ f weights S N ls inputs W D
             Hw Hsh HW Hin Hlen Hhd).
  unfold bind at 1. unfold log_lik, broadcast2.
  rewrite shape_build, Ht, (broadcast_shapes_targets_mismatch _ _ Hne HN HN').
  reflexivity.
Qed.

Lemma log_lik_targets_1d (noise_variance : F) (preds targets : ndarray F)
  (S N : nat) :
  shape preds = [S; N; 1] -> shape targets = [N] -> 1 <= N ->
  log_lik noise_variance preds targets
  = Ok (build [S]
          (fun1 (log_lik_single_target noise_variance preds (get targets [0]) N))).
Proof.
  intros Hp Ht HN. unfold log_lik, broadcast2.
  rewrite Hp, Ht, broadcast_shapes_targets_1d. unfold bind at 1.
  rewrite map_nd_build. unfold sum_axis1. rewrite shape_build.
  unfold bind at 1. unfold index_axis1_0. rewrite shape_build.
  destruct (Nat.eqb_spec N 0) as [HN0|_]; [lia|].
  unfold bind. rewrite map_nd_build. f_equal.
  apply build_ext. intros idx Hb. inv_bounds Hb. rename i into s.
  rewrite get_build by solve_bounds.
  unfold fun1, log_lik_single_target. f_equal. f_equal. f_equal.
  apply map_ext_in. intros j Hj. apply in_seq in Hj.
  rewrite get_build by solve_bounds.
  rewrite bidx3. simpl (1 =? 1).
  replace (if S =? 1 then 0 else s) with s
    by (destruct (Nat.eqb_spec S 1); lia).
  replace (if N =? 1 then 0 else j) with j
    by (destruct (Nat.eqb_spec N 1); lia).
  change (bidx [N] [s; j; 0]) with [if N =? 1 then 0 else 0].
  destruct (N =? 1); reflexivity.
Qed.

(** X9: with a 1-D target array of length N (instead of shape (N, 1)) and
    a network with one output, [logprob] raises nothing: the subtraction
    broadcasts to all N * N pairs and [[:, 0]] keeps the first target, so
    the likelihood term of every sample compares every prediction with
    [targets[0]] and the targets 1 .. N-1 are never used. *)
Theorem logprob_targets_1d (ls : list nat) (L2_reg noise_variance : F)
  (f : F -> F) (weights inputs targets : ndarray F) (S W N D : nat) :
  wf weights -> shape weights = [S; W] -> num_weights ls <= W ->
  shape inputs = [N; D] -> hd 0 ls = D -> 2 <= length ls ->
  last ls 0 = 1 ->
  shape targets = [N] -> 1 <= N ->
  exists preds,
    predictions ls f weights inputs = Ok preds /\
    logprob ls L2_reg noise_variance f weights inputs targets
    = Ok (build [S]
            (fun1 (fun s =>
                     sadd (log_prior_at L2_reg weights W s)
                          (log_lik_single_target noise_variance preds
                             (get targets [0]) N s)))).
Proof.
  intros Hw Hsh HW Hin Hhd Hlen Hlast Ht HN.
  pose proof (@predictions_closed F _ f weights S N ls inputs W D
                Hw Hsh HW Hin Hlen Hhd) as Hpred.
  rewrite Hlast in Hpred.
  eexists. split; [exact Hpred |].
  unfold logprob. rewrite (log_prior_closed L2_reg Hw Hsh). unfold bind at 1.
  rewrite Hpred. unfold bind at 1.
  rewrite (@log_lik_targets_1d noise_variance _ targets S N
             (shape_build _ _) Ht HN).
  unfold bind. apply add_vectors.
Qed.

End WrongTargets.

Lemma logprob_target_rows_mismatch_witness :
  logprob ex_layers (qc 1) (qc 2) (fun x => x) ex_weights ex_inputs
    ex_three_targets = Raise ValueError.
Proof.
  apply (@logprob_target_rows_mismatch Qc _ ex_layers (qc 1) (qc 2)
           (fun x => x) ex_weights ex_inputs ex_three_targets 1 7 2 1 3);
    try reflexivity; simpl; lia.
Defined.

Lemma logprob_targets_1d_witness :
  exists preds,
    predictions ex_layers (fun x => x) ex_weights ex_inputs = Ok preds /\
    logprob ex_layers (qc 1) (qc 2) (fun x => x) ex_weights ex_inputs
      ex_targets_1d
    = Ok (build [1]
            (fun1 (fun s =>
                     sadd (log_prior_at (qc 1) ex_weights 7 s)
                          (log_lik_single_target (qc 2) preds
                             (get ex_targets_1d [0]) 2 s)))).
Proof.
  apply (@logprob_targets_1d Qc _ ex_layers (qc 1) (qc 2) (fun x => x)
           ex_weights ex_inputs ex_targets_1d 1 7 2 1);
    try reflexivity; simpl; lia.
Defined.

Example ex_logprob_targets_1d :
  nd_values (logprob ex_layers (qc 1) (qc 2) (fun x => x)
               ex_weights ex_inputs ex_targets_1d)
  = Ok ([1], [-7989 # 2]%Q).
Proof. vm_compute. reflexivity. Qed.

(** ** Vectorisation over weight samples and data points *)

Section Vectorised.

Context {F : Type} `{Scalar F}.

Lemma layer_out_ext2 (m n off : nat) (w w' x x' : nat -> F) (o : nat) :
  (forall c, c < m -> x c = x' c) ->
  (forall i, off <= i < off + (m + 1) * n -> w i = w' i) ->
  o < n ->
  layer_out m n off w x o = layer_out m n off w' x' o.
Proof.
  intros Hx Hw Ho. unfold layer_out. f_equal.
  - f_equal. apply map_ext_in. intros c Hc. apply in_seq in Hc.
    rewrite Hx by lia. f_equal. apply Hw. nia.
  - apply Hw. nia.
Qed.

Lemma net_ext2 (f : F -> F) (shp : list (nat * nat)) :
  forall m off w w' x x' o,
    shp <> [] -> chain m shp ->
    (forall c, c < m -> x c = x' c) ->
    (forall i, off <= i < off + columns_needed shp -> w i = w' i) ->
    o < out_width m shp ->
    net f shp off w x o = net f shp off w' x' o.
Proof.
  induction shp as [|[m' n] shp IH]; intros m off w w' x x' o Hne Hch Hx Hw Ho.
  - congruence.
  - destruct Hch as [-> Hch]. rewrite columns_needed_cons in Hw.
    destruct shp as [|q shp].
    + simpl. simpl in Ho. apply layer_out_ext2; [exact Hx | | exact Ho].
      intros i Hi. apply Hw. lia.
    + change (net f ((m, n) :: q :: shp) off ?v ?y o)
        with (net f (q :: shp) (off + (m + 1) * n) v
                (fun o' => f (layer_out m n off v y o')) o).
      apply (IH n); [discriminate | exact Hch | | | exact Ho].
      * intros c Hc. f_equal. apply layer_out_ext2; [exact Hx | | exact Hc].
        intros i Hi. apply Hw. lia.
      * intros i Hi. apply Hw. lia.
Qed.

Lemma wf_take_rows (p : list nat) (a : ndarray F) :
  wf a -> wf (take_rows p a).
Proof.
  intros Ha. unfold take_rows. destruct (shape a); [exact Ha | apply wf_build].
Qed.

Lemma nth_lt (p : list nat) (S k : nat) :
  Forall (fun i => i < S) p -> k < length p -> nth k p 0 < S.
Proof.
  intros Hp Hk. rewrite Forall_forall in Hp. apply Hp. apply nth_In. exact Hk.
Qed.

Lemma take_rows_build (p : list nat) (d0 : nat) (rest : list nat)
  (g : list nat -> F) :
  take_rows p (build (d0 :: rest) g)
  = build (length p :: rest)
      (fun idx => match idx with
                  | k :: r => get (build (d0 :: rest) g) (nth k p 0 :: r)
                  | [] => s0
                  end).
Proof. reflexivity. Qed.

Lemma net_take_rows (f : F -> F) (ls : list nat) (weights : ndarray F)
  (S W : nat) (p : list nat) (k o : nat) (x : nat -> F) :
  shape weights = [S; W] -> num_weights ls <= W -> 2 <= length ls ->
  k < length p -> o < last ls 0 ->
  net f (shapes ls) 0 (fun c => get (take_rows p weights) [k; c]) x o
  = net f (shapes ls) 0 (fun c => get weights [nth k p 0; c]) x o.
Proof.
  intros Hsh HW Hlen Hk Ho.
  destruct ls as [|a [|b ls]]; try (simpl in Hlen; lia).
  apply net_ext2 with (m := a).
  - rewrite shapes_cons2. discriminate.
  - apply chain_shapes.
  - reflexivity.
  - intros c Hc. apply (@get_take_rows F _ p weights S W k c Hsh Hk).
    rewrite num_weights_columns in HW. lia.
  - rewrite out_width_shapes. exact Ho.
Qed.

(** X10: [predictions] treats the weight samples independently: selecting
    samples [p] of the weight batch (repeats allowed) and predicting gives
    the selected samples of the predictions of the whole batch. *)
Theorem predictions_of_selected_samples (ls : list nat) (f : F -> F)
  (weights inputs : ndarray F) (S W N D : nat) (p : list nat) :
  wf weights -> shape weights = [S; W] -> num_weights ls <= W ->
  shape inputs = [N; D] -> hd 0 ls = D -> 2 <= length ls ->
  Forall (fun i => i < S) p ->
  exists preds,
    predictions ls f weights inputs = Ok preds /\
    predictions ls f (take_rows p weights) inputs = Ok (take_rows p preds).
Proof.
  intros Hw Hsh HW Hin Hhd Hlen Hp.
  pose proof (@predictions_closed F _ f weights S N ls inputs W D
                Hw Hsh HW Hin Hlen Hhd) as Hpred.
  eexists. split; [exact Hpred |].
  rewrite (@predictions_closed F _ f (take_rows p weights) (length p) N ls
             inputs W D (wf_take_rows p Hw) (@shape_take_rows F _ p weights S W Hsh)
             HW Hin Hlen Hhd).
  f_equal. unfold take_rows at 2. rewrite shape_build.
  apply build_ext. intros idx Hb. inv_bounds Hb.
  rename i into k, i0 into n, i1 into o.
  assert (Hpk : nth k p 0 < S) by (apply nth_lt; assumption).
  rewrite get_build by solve_bounds. unfold fun3.
  apply (@net_take_rows f ls weights S W p k o _ Hsh HW Hlen Hi Hi1).
Qed.

Lemma shape_take_axis1 (p : list nat) (a : ndarray F) (S N D : nat) :
  shape a = [S; N; D] -> shape (take_axis1 p a) = [S; length p; D].
Proof. intros Hsh. unfold take_axis1. rewrite Hsh. reflexivity. Qed.

(** X11: [predictions] treats the data points independently: predicting
    on the selected rows [p] of the input batch (repeats allowed) gives the
    selected rows, along the data axis, of the predictions of the whole
    batch. *)
Theorem predictions_of_selected_rows (ls : list nat) (f : F -> F)
  (weights inputs : ndarray F) (S W N D : nat) (p : list nat) :
  wf weights -> shape weights = [S; W] -> num_weights ls <= W ->
  shape inputs = [N; D] -> hd 0 ls = D -> 2 <= length ls ->
  Forall (fun i => i < N) p ->
  exists preds,
    predictions ls f weights inputs = Ok preds /\
    predictions ls f weights (take_rows p inputs) = Ok (take_axis1 p preds).
Proof.
  intros Hw Hsh HW Hin Hhd Hlen Hp.
  pose proof (@predictions_closed F _ f weights S N ls inputs W D
                Hw Hsh HW Hin Hlen Hhd) as Hpred.
  eexists. split; [exact Hpred |].
  rewrite (@predictions_closed F _ f weights S (length p) ls
             (take_rows p inputs) W D Hw Hsh HW
             (@shape_take_rows F _ p inputs N D Hin) Hlen Hhd).
  f_equal. unfold take_axis1. rewrite shape_build.
  apply build_ext. intros idx Hb. inv_bounds Hb.
  rename i into s, i0 into k, i1 into o.
  assert (Hpk : nth k p 0 < N) by (apply nth_lt; assumption).
  rewrite get_build by solve_bounds. unfold fun3.
  destruct ls as [|a [|b ls]]; try (simpl in Hlen; lia).
  simpl in Hhd. subst a.
  apply net_ext2 with (m := D).
  - rewrite shapes_cons2. discriminate.
  - apply chain_shapes.
  - intros c Hc. apply (@get_take_rows F _ p inputs N D k c Hin Hi0 Hc).
  - reflexivity.
  - rewrite out_width_shapes. exact Hi1.
Qed.

End Vectorised.

Lemma predictions_of_selected_samples_witness :
  exists preds,
    predictions ex_layers (fun x => x) ex_two_samples ex_inputs = Ok preds /\
    predictions ex_layers (fun x => x) (take_rows ex_selection ex_two_samples)
      ex_inputs = Ok (take_rows ex_selection preds).
Proof.
  apply (@predictions_of_selected_samples Qc _ ex_layers (fun x => x)
           ex_two_samples ex_inputs 2 7 2 1 ex_selection);
    try reflexivity; try (simpl; lia).
  repeat constructor.
Defined.

Lemma predictions_of_selected_rows_witness :
  exists preds,
    predictions ex_layers (fun x => x) ex_weights ex_inputs = Ok preds /\
    predictions ex_layers (fun x => x) ex_weights
      (take_rows ex_selection ex_inputs) = Ok (take_axis1 ex_selection preds).
Proof.
  apply (@predictions_of_selected_rows Qc _ ex_layers (fun x => x)
           ex_weights ex_inputs 1 7 2 1 ex_selection);
    try reflexivity; try (simpl; lia).
  repeat constructor.
Defined.

Section VectorisedLogprob.

Context {F : Type} `{Scalar F}.

(** X12: [logprob] treats the weight samples independently: the score of
    the selected samples [p] of a weight batch (repeats allowed) is the
    selection of the scores of the whole batch; no score depends on another
    sample's weights. *)
Theorem logprob_of_selected_samples (ls : list nat) (L2_reg noise_variance : F)
  (f : F -> F) (weights inputs targets : ndarray F) (S W N D : nat)
  (p : list nat) :
  wf weights -> shape weights = [S; W] -> num_weights ls <= W ->
  shape inputs = [N; D] -> hd 0 ls = D -> 2 <= length ls ->
  shape targets = [N; 1] -> 1 <= last ls 0 ->
  Forall (fun i => i < S) p ->
  exists r,
    logprob ls L2_reg noise_variance f weights inputs targets = Ok r /\
    logprob ls L2_reg noise_variance f (take_rows p weights) inputs targets
    = Ok (take_rows p r).
Proof.
  intros Hw Hsh HW Hin Hhd Hlen Ht Hlast Hp.
  pose proof (@predictions_closed F _ f weights S N ls inputs W D
                Hw Hsh HW Hin Hlen Hhd) as Hpred.
  pose proof (@predictions_closed F _ f (take_rows p weights) (length p) N ls
                inputs W D (wf_take_rows p Hw)
                (@shape_take_rows F _ p weights S W Hsh)
                HW Hin Hlen Hhd) as Hpred'.
  eexists. split.
  - apply (@logprob_closed F _ ls L2_reg noise_variance f weights inputs targets
             _ S W N (last ls 0) Hw Hsh Hpred (shape_build _ _) Ht Hlast).
  - rewrite (@logprob_closed F _ ls L2_reg noise_variance f (take_rows p weights)
               inputs targets _ (length p) W N (last ls 0)
               (wf_take_rows p Hw) (@shape_take_rows F _ p weights S W Hsh)
               Hpred' (shape_build _ _) Ht Hlast).
    f_equal. rewrite take_rows_build.
    apply build_ext. intros idx Hb. inv_bounds Hb. rename i into k.
    assert (Hpk : nth k p 0 < S) by (apply nth_lt; assumption).
    rewrite get_build by solve_bounds. unfold fun1. f_equal.
    + unfold log_prior_at. f_equal. f_equal.
      apply map_ext_in. intros c Hc. apply in_seq in Hc. f_equal.
      apply (@get_take_rows F _ p weights S W k c Hsh Hi). lia.
    + unfold log_lik_at. f_equal. f_equal. f_equal.
      apply map_ext_in. intros j Hj. apply in_seq in Hj. f_equal. f_equal.
      rewrite !get_build by solve_bounds. unfold fun3.
      apply (@net_take_rows F _ f ls weights S W p k 0 _ Hsh HW Hlen Hi).
      lia.
Qed.


End VectorisedLogprob.

Lemma logprob_of_selected_samples_witness :
  exists r,
    logprob ex_layers (qc 1) (qc 2) (fun x => x) ex_two_samples ex_inputs
      ex_targets = Ok r /\
    logprob ex_layers (qc 1) (qc 2) (fun x => x)
      (take_rows ex_selection ex_two_samples) ex_inputs ex_targets
    = Ok (take_rows ex_selection r).
Proof.
  apply (@logprob_of_selected_samples Qc _ ex_layers (qc 1) (qc 2) (fun x => x)
           ex_two_samples ex_inputs ex_targets 2 7 2 1 ex_selection);
    try reflexivity; try (simpl; lia).
  repeat constructor.
Defined.


(** ** The parameter count of a longer schedule *)

Lemma shapes_snoc (ls : list nat) (n : nat) :
  ls <> [] -> shapes (ls ++ [n]) = shapes ls ++ [(last ls 0, n)].
Proof.
  destruct ls as [|a ls]; [congruence | intros _].
  revert a. induction ls as [|b ls IH]; intros a.
  - reflexivity.
  - change ((a :: b :: ls) ++ [n]) with (a :: b :: (ls ++ [n])).
    rewrite !shapes_cons2.
    change (b :: ls ++ [n]) with ((b :: ls) ++ [n]). rewrite IH.
    reflexivity.
Qed.

(** X14: appending a layer of width [n] to a non-empty schedule whose last
    width is [m] adds [(m + 1) * n] parameters to [num_weights]: the new
    matrix and the new bias. *)
Theorem num_weights_append_layer (ls : list nat) (n : nat) :
  ls <> [] ->
  num_weights (ls ++ [n]) = num_weights ls + (last ls 0 + 1) * n.
Proof.
  intros Hne. unfold num_weights. rewrite (shapes_snoc n Hne).
  rewrite map_app, py_sum_app. f_equal.
Qed.

Lemma num_weights_append_layer_witness :
  num_weights (ex_layers ++ [3]) = num_weights ex_layers + (last ex_layers 0 + 1) * 3.
Proof.
  apply (@num_weights_append_layer ex_layers 3). discriminate.
Defined.

(** ** Extra columns are penalised though ignored *)

Section ExtraColumns.

Context {F : Type} `{Scalar F}.

Lemma predictions_agree (ls : list nat) (f : F -> F)
  (w w' inputs : ndarray F) (S W W' : nat) :
  wf w -> shape w = [S; W] -> num_weights ls <= W ->
  wf w' -> shape w' = [S; W'] -> num_weights ls <= W' ->
  (forall s c, s < S -> c < num_weights ls -> get w [s; c] = get w' [s; c]) ->
  predictions ls f w inputs = predictions ls f w' inputs.
Proof.
  intros Hw Hsh HW Hw' Hsh' HW' Hag. unfold predictions.
  rewrite (unpack_layers_pairs ls Hw Hsh HW).
  rewrite (unpack_layers_pairs ls Hw' Hsh' HW').
  rewrite (@pairs_at_ext F _ w w' S (shapes ls) 0); [reflexivity |].
  intros s c Hs Hc. apply Hag; [assumption |].
  rewrite num_weights_columns. lia.
Qed.

(** X15: for a weight batch with more than [num_weights] columns [logprob]
    raises nothing; its likelihood term is that of the batch cut to its
    first [num_weights] columns, while its prior term sums the squares of
    all the columns, the ignored ones included. *)
Theorem logprob_extra_columns (ls : list nat) (L2_reg noise_variance : F)
  (f : F -> F) (weights inputs targets : ndarray F) (S W N D : nat) :
  wf weights -> shape weights = [S; W] -> num_weights ls <= W ->
  shape inputs = [N; D] -> hd 0 ls = D -> 2 <= length ls ->
  shape targets = [N; 1] -> 1 <= last ls 0 ->
  exists cut preds r,
    slice_axis1 0 (Some (num_weights ls)) weights = Ok cut /\
    predictions ls f cut inputs = Ok preds /\
    logprob ls L2_reg noise_variance f weights inputs targets = Ok r /\
    forall s, s < S ->
      get r [s] = sadd (log_prior_at L2_reg weights W s)
                       (log_lik_at noise_variance preds targets N s).
Proof.
  intros Hw Hsh HW Hin Hhd Hlen Ht Hlast.
  pose proof (@predictions_closed F _ f weights S N ls inputs W D
                Hw Hsh HW Hin Hlen Hhd) as Hpred.
  exists (colblock weights S 0 (num_weights ls)). eexists. eexists.
  split.
  { rewrite <- (colblock_all Hw Hsh) at 1.
    apply slice_colblock; lia. }
  split.
  { rewrite <- Hpred. symmetry.
    apply (@predictions_agree ls f weights (colblock weights S 0 (num_weights ls))
             inputs S W (num_weights ls));
      [exact Hw | exact Hsh | exact HW | apply wf_build | reflexivity | lia |].
    intros s c Hs Hc. rewrite get_colblock by assumption. reflexivity. }
  split.
  { eapply logprob_closed; eauto using shape_build. }
  intros s Hs. rewrite get_build by solve_bounds. reflexivity.
Qed.

End ExtraColumns.

Lemma logprob_extra_columns_witness :
  exists cut preds r,
    slice_axis1 0 (Some (num_weights ex_layers)) ex_weights_wide = Ok cut /\
    predictions ex_layers (fun x => x) cut ex_inputs = Ok preds /\
    logprob ex_layers (qc 1) (qc 2) (fun x => x) ex_weights_wide ex_inputs
      ex_targets = Ok r /\
    forall s, s < 1 ->
      get r [s] = sadd (log_prior_at (qc 1) ex_weights_wide 8 s)
                       (log_lik_at (qc 2) preds ex_targets 2 s).
Proof.
  apply (@logprob_extra_columns Qc _ ex_layers (qc 1) (qc 2) (fun x => x)
           ex_weights_wide ex_inputs ex_targets 1 8 2 1);
    try reflexivity; try (simpl; lia).
  unfold num_weights, py_sum. simpl. lia.
Defined.

(** The prior of the wide batch counts its eighth column: 140 + 100^2. *)
Example ex_logprob_wide :
  nd_values (logprob ex_layers (qc 1) (qc 2) (fun x => x)
               ex_weights_wide ex_inputs ex_targets)
  = Ok ([1], [-26689 # 2]%Q).
Proof. vm_compute. reflexivity. Qed.

(** ** Sign of the log-posterior *)

Section Sign.

Context {F : Type} `{Scalar F}.

Variable sone : F.
Variable sinv : F -> F.
Variables sle slt : F -> F -> Prop.
Hypothesis sor : SOR s0 sone sadd smul ssub sneg eq sle slt.
Hypothesis div_def : forall x y : F, sdiv x y = smul x (sinv y).
Hypothesis inv_l : forall y : F, y <> s0 -> smul (sinv y) y = sone.

Add Ring scalar_ring_sign : (SORrt sor).

Lemma sum_squares_nonneg (g : nat -> F) (l : list nat) :
  sle s0 (sum_list (map (fun c => spow2 (g c)) l)).
Proof.
  unfold sum_list. apply (fold_sadd_nonneg sor).
  - apply Forall_forall. intros y Hy. apply in_map_iff in Hy.
    destruct Hy as [c [<- _]]. apply (spow2_nonneg sor).
  - apply (Rle_refl sor).
Qed.

Lemma nonpos_times_nonneg (a b : F) :
  sle a s0 -> sle s0 b -> sle (smul a b) s0.
Proof.
  intros Ha Hb. apply (proj2 (Rle_le_minus sor _ _)).
  replace (ssub s0 (smul a b)) with (smul (ssub s0 a) b) by ring.
  apply (Rtimes_nonneg_nonneg sor); [| exact Hb].
  apply (proj1 (Rle_le_minus sor _ _)). exact Ha.
Qed.

Lemma neg_nonneg (a : F) : sle s0 a -> sle (sneg a) s0.
Proof.
  intros Ha. apply (proj2 (Rle_le_minus sor _ _)).
  replace (ssub s0 (sneg a)) with a by ring. exact Ha.
Qed.

Lemma nonpos_plus (a b : F) : sle a s0 -> sle b s0 -> sle (sadd a b) s0.
Proof.
  intros Ha Hb. pose proof (Rplus_le_mono sor _ _ _ _ Ha Hb) as Hsum.
  rewrite (Rplus_0_l sor s0) in Hsum. exact Hsum.
Qed.

Lemma log_prior_at_nonpos (L2_reg : F) (weights : ndarray F) (W s : nat) :
  sle s0 L2_reg -> sle (log_prior_at L2_reg weights W s) s0.
Proof.
  intros HL. unfold log_prior_at. apply nonpos_times_nonneg.
  - apply neg_nonneg. exact HL.
  - apply sum_squares_nonneg.
Qed.

Lemma sinv_pos (y : F) : slt s0 y -> slt s0 (sinv y).
Proof.
  intros Hy.
  assert (Hne : y <> s0).
  { intros Heq. apply (Rlt_neq sor _ _ Hy). symmetry. exact Heq. }
  pose proof (inv_l Hne) as Hinv.
  destruct (Rlt_trichotomy sor (sinv y) s0) as [Hneg | [Hzero | Hpos]].
  - exfalso.
    pose proof (Rtimes_pos_neg sor _ _ Hy Hneg) as Hlt.
    replace (smul y (sinv y)) with sone in Hlt by (rewrite <- Hinv; ring).
    apply (Rlt_neq sor _ _ (Rlt_trans sor _ _ _ Hlt (Rlt_0_1 sor))).
    reflexivity.
  - exfalso. apply (Rneq_0_1 sor). rewrite <- Hinv, Hzero. ring.
  - exact Hpos.
Qed.

Lemma log_lik_at_nonpos (noise_variance : F) (preds targets : ndarray F)
  (N s : nat) :
  slt s0 noise_variance ->
  sle (log_lik_at noise_variance preds targets N s) s0.
Proof.
  intros Hnv. unfold log_lik_at. rewrite div_def.
  apply nonpos_times_nonneg.
  - apply neg_nonneg.
    apply (sum_squares_nonneg
             (fun j => ssub (get preds [s; j; 0]) (get targets [j; 0]))).
  - apply (proj2 (Rle_lt_eq sor _ _)). left. apply sinv_pos. exact Hnv.
Qed.

(** X16: with a coefficient [L2_reg >= 0] every entry of the log-prior is
    at most 0, in a strictly ordered ring of scalars: the penalty never
    rewards a weight. *)
Theorem log_prior_nonpositive (L2_reg : F) (weights : ndarray F) (S W s : nat) :
  wf weights -> shape weights = [S; W] -> s < S ->
  sle s0 L2_reg ->
  exists a,
    log_prior L2_reg weights = Ok a /\ sle (get a [s]) s0.
Proof.
  intros Hw Hsh Hs HL. eexists. split.
  - apply (log_prior_closed L2_reg Hw Hsh).
  - rewrite get_build by solve_bounds. unfold fun1.
    apply log_prior_at_nonpos. exact HL.
Qed.

(** X17: with [L2_reg >= 0] and [noise_variance > 0] every entry of the
    result of [logprob] is at most 0, in a strictly ordered field of
    scalars: 0 bounds the unnormalised log-posterior from above. *)
Theorem logprob_nonpositive (ls : list nat) (L2_reg noise_variance : F)
  (f : F -> F) (weights inputs targets : ndarray F) (S W N D s : nat) :
  wf weights -> shape weights = [S; W] -> num_weights ls <= W ->
  shape inputs = [N; D] -> hd 0 ls = D -> 2 <= length ls ->
  shape targets = [N; 1] -> 1 <= last ls 0 ->
  sle s0 L2_reg -> slt s0 noise_variance -> s < S ->
  exists r,
    logprob ls L2_reg noise_variance f weights inputs targets = Ok r /\
    sle (get r [s]) s0.
Proof.
  intros Hw Hsh HW Hin Hhd Hlen Ht Hlast HL Hnv Hs.
  pose proof (@predictions_closed F _ f weights S N ls inputs W D
                Hw Hsh HW Hin Hlen Hhd) as Hpred.
  eexists. split.
  - eapply logprob_closed; eauto using shape_build.
  - rewrite get_build by solve_bounds. unfold fun1.
    apply nonpos_plus.
    + apply log_prior_at_nonpos. exact HL.
    + apply log_lik_at_nonpos. exact Hnv.
Qed.

End Sign.

Lemma log_prior_nonpositive_witness :
  exists a,
    log_prior (qc 1) ex_weights = Ok a /\ Qcle (get a [0]) 0%Qc.
Proof.
  apply (@log_prior_nonpositive Qc QcScalar 1%Qc Qcle Qclt Qc_sor
           (qc 1) ex_weights 1 7 0); try reflexivity.
  - lia.
  - discriminate.
Defined.

Lemma logprob_nonpositive_witness :
  exists r,
    logprob ex_layers (qc 1) (qc 2) (fun x => x) ex_weights ex_inputs ex_targets
    = Ok r /\ Qcle (get r [0]) 0%Qc.
Proof.
  apply (@logprob_nonpositive Qc QcScalar 1%Qc Qcinv Qcle Qclt Qc_sor
           (fun x y => eq_refl) Qcmult_inv_l
           ex_layers (qc 1) (qc 2) (fun x => x) ex_weights ex_inputs ex_targets
           1 7 2 1 0); try reflexivity; try (simpl; lia).
  discriminate.
Defined.

(** ** Packing layer matrices into a weight batch *)

Section Packing.

Context {F : Type} `{Scalar F}.

Lemma repack_pairs_at (w : ndarray F) (S : nat) (shp : list (nat * nat)) :
  wf w -> shape w = [S; columns_needed shp] -> shp <> [] ->
  repack (pairs_at w S shp 0) = Ok w.
Proof.
  intros Hw Hsh Hne. destruct shp as [|[m n] shp]; [congruence |].
  rewrite columns_needed_cons in Hsh.
  destruct (@concat_blocks F _ w S 0 shp ((m + 1) * n)) as [l [Hl Hfold]].
  unfold repack. cbn [pairs_at flat_blocks].
  rewrite flatten_weight_matrix, flatten_bias_vector. cbn [bind].
  rewrite Hl. cbn [bind concatenate_axis1 fold_left].
  rewrite (@hstack_colblock F _ w S 0 (m * n) n (0 + m * n) ((m + 1) * n))
    by lia.
  rewrite Hfold. f_equal. apply colblock_all; assumption.
Qed.

Lemma pairs_at_flat_get (w : ndarray F) (S : nat) (shp : list (nat * nat)) :
  forall items off,
    pairs_fit S shp items ->
    (forall s j, s < S -> j < columns_needed shp ->
       get w [s; off + j] = flat_get shp items s j) ->
    pairs_at w S shp off = items.
Proof.
  induction shp as [|[m n] shp IH]; intros items off Hfit Hget.
  - destruct items; [reflexivity | contradiction].
  - destruct items as [|[W b] items]; [contradiction |].
    destruct Hfit as [HwW [HsW [Hwb [Hsb Hfit]]]].
    rewrite columns_needed_cons in Hget. simpl pairs_at. f_equal.
    + f_equal.
      * symmetry. apply nd_eq_build; [exact HwW | exact HsW |].
        intros idx Hb. inv_bounds Hb. rename i into s, i0 into d, i1 into o.
        unfold fun3. rewrite Hget by (try assumption; nia).
        simpl flat_get.
        destruct (Nat.ltb_spec (d * n + o) (m * n)) as [_|Hge]; [| nia].
        rewrite <- (Nat.div_unique (d * n + o) n d o) by lia.
        rewrite <- (Nat.mod_unique (d * n + o) n d o) by lia.
        reflexivity.
      * symmetry. apply nd_eq_build; [exact Hwb | exact Hsb |].
        intros idx Hb. inv_bounds Hb. rename i into s, i0 into d, i1 into o.
        assert (d = 0) by lia. subst d.
        unfold fun3.
        replace (off + m * n + o) with (off + (m * n + o)) by lia.
        rewrite Hget by (try assumption; nia).
        simpl flat_get.
        destruct (Nat.ltb_spec (m * n + o) (m * n)) as [Hlt|_]; [lia |].
        destruct (Nat.ltb_spec (m * n + o) ((m + 1) * n)) as [_|Hge]; [| nia].
        replace (m * n + o - m * n) with o by lia. reflexivity.
    + apply IH; [exact Hfit |].
      intros s j Hs Hj.
      replace (off + (m + 1) * n + j) with (off + ((m + 1) * n + j)) by lia.
      rewrite Hget by (try assumption; lia).
      simpl flat_get.
      destruct (Nat.ltb_spec ((m + 1) * n + j) (m * n)) as [Hlt|_]; [nia |].
      destruct (Nat.ltb_spec ((m + 1) * n + j) ((m + 1) * n)) as [Hlt|_]; [lia |].
      replace ((m + 1) * n + j - (m + 1) * n) with j by lia. reflexivity.
Qed.

(** X18: packing is inverted by unpacking: for matrices of shapes
    (S, m, n) and biases of shapes (S, 1, n) that follow a schedule with at
    least one layer pair, flattening and concatenating them gives a weight
    batch of shape (S, num_weights) that [unpack_layers] takes apart into
    exactly these matrices and biases. *)
Theorem unpack_repack (ls : list nat) (items : list (ndarray F * ndarray F))
  (S : nat) :
  2 <= length ls -> pairs_fit S (shapes ls) items ->
  exists w,
    repack items = Ok w /\
    wf w /\ shape w = [S; num_weights ls] /\
    gen_items (unpack_layers ls w) = Ok items.
Proof.
  intros Hlen Hfit.
  set (w := build [S; num_weights ls] (fun2 (flat_get (shapes ls) items))).
  assert (Hw : wf w) by apply wf_build.
  assert (Hsh : shape w = [S; num_weights ls]) by reflexivity.
  assert (Hitems : pairs_at w S (shapes ls) 0 = items).
  { apply pairs_at_flat_get; [exact Hfit |].
    intros s j Hs Hj. unfold w. rewrite get_build by solve_bounds.
    reflexivity. }
  exists w. split.
  - rewrite <- Hitems at 1. apply repack_pairs_at; [exact Hw | exact Hsh |].
    intros Hnil. pose proof (length_shapes ls) as Hl.
    rewrite Hnil in Hl. simpl in Hl. lia.
  - split; [exact Hw |]. split; [exact Hsh |].
    rewrite (unpack_layers_pairs ls Hw Hsh (le_n _)), Hitems.
    apply gen_items_of_list.
Qed.

End Packing.

Lemma unpack_repack_witness :
  exists w,
    repack ex_linear_items = Ok w /\
    wf w /\ shape w = [1; num_weights ex_linear_layers] /\
    gen_items (unpack_layers ex_linear_layers w) = Ok ex_linear_items.
Proof.
  apply (@unpack_repack Qc _ ex_linear_layers ex_linear_items 1).
  - simpl. lia.
  - simpl. repeat split; reflexivity.
Defined.

Example ex_repack_linear :
  repack ex_linear_items = Ok ex_linear_weights.
Proof. reflexivity. Qed.
